(** * PG Explorer (ui/app.py): schema-aware query and relationship inference

    A shallow embedding of the helpers and route handlers of [ui/app.py]
    and the properties of them that the design document states.

    Conventions of the model.
    - A Python [str] is a [string]; [str.lower] acts on the ASCII letters
      (identifiers of the catalogue), other bytes are left as they are.
    - A Python [dict] whose order is never observed is a [gmap]; one whose
      key order is observed (a submitted form, a result row) is an
      association list.
    - The SQLAlchemy inspector, the store behind the connection and the
      library parsers ([int], [float], [json.loads]) are collaborators of
      the program: they are fields of the records [Inspector], [Db] and
      [Lib], and every statement below holds for all of them. The
      inspector answers for every table name; a query reads the store and
      does not change it.
    - Executing a statement goes through a small state-and-error monad over
      the store and the log of the statements that were sent to it. *)

From Stdlib Require Import ZArith Ascii SpecFloat.
From stdpp Require Import base option list gmap strings sorting.

(** ** Python string operations used by the program *)

Module Py.

Definition lower_ascii (c : ascii) : ascii :=
  let n := nat_of_ascii c in
  if (65 <=? n)%nat && (n <=? 90)%nat then ascii_of_nat (n + 32) else c.

(** [s.lower()] *)
Fixpoint lower (s : string) : string :=
  match s with
  | EmptyString => EmptyString
  | String c r => String (lower_ascii c) (lower r)
  end.

(** [s.startswith(p)] *)
Fixpoint startswith (s p : string) : bool :=
  match p, s with
  | EmptyString, _ => true
  | String _ _, EmptyString => false
  | String a p', String b s' => if ascii_dec a b then startswith s' p' else false
  end.

(** [s[n:]] for [0 <= n] *)
Fixpoint drop (n : nat) (s : string) : string :=
  match n, s with
  | O, _ => s
  | S _, EmptyString => EmptyString
  | S n', String _ r => drop n' r
  end.

(** [s[:n]] for [0 <= n] *)
Fixpoint take (n : nat) (s : string) : string :=
  match n, s with
  | O, _ => EmptyString
  | S _, EmptyString => EmptyString
  | S n', String c r => String c (take n' r)
  end.

(** [s[:-k]] for [0 < k] *)
Definition drop_last (k : nat) (s : string) : string :=
  take (String.length s - k) s.

(** [s.endswith(suf)] *)
Definition endswith (s suf : string) : bool :=
  (String.length suf <=? String.length s)%nat
  && bool_decide (drop (String.length s - String.length suf) s = suf).

(** [c in s] for a one-character [c] *)
Fixpoint contains_char (c : ascii) (s : string) : bool :=
  match s with
  | EmptyString => false
  | String a r => if ascii_dec a c then true else contains_char c r
  end.

(** [s.split(c)[-1]]: what follows the last [c], the whole of [s] when
    there is none. *)
Fixpoint last_token (c : ascii) (s : string) : string :=
  match s with
  | EmptyString => EmptyString
  | String a r =>
      if contains_char c r then last_token c r
      else if ascii_dec a c then r else s
  end.

(** [s.split(c, 1)]: [None] when [c] does not occur in [s]. *)
Fixpoint split_once (c : ascii) (s : string) : option (string * string) :=
  match s with
  | EmptyString => None
  | String a r =>
      if ascii_dec a c then Some (EmptyString, r)
      else match split_once c r with
           | Some (h, t) => Some (String a h, t)
           | None => None
           end
  end.

(** [sep.join(l)] *)
Fixpoint join (sep : string) (l : list string) : string :=
  match l with
  | [] => ""
  | [x] => x
  | x :: r => x +:+ sep +:+ join sep r
  end.

(** [s.replace(a, b)] for one-character [a] and [b] *)
Fixpoint replace_char (a b : ascii) (s : string) : string :=
  match s with
  | EmptyString => EmptyString
  | String c r => String (if ascii_dec c a then b else c) (replace_char a b r)
  end.

(** [[p for p in s.split(c) if p]] *)
Fixpoint split_nonempty_go (c : ascii) (cur : string) (s : string) : list string :=
  match s with
  | EmptyString => if bool_decide (cur = "") then [] else [String.rev cur]
  | String a r =>
      if ascii_dec a c then
        (if bool_decide (cur = "") then [] else [String.rev cur])
          ++ split_nonempty_go c "" r
      else split_nonempty_go c (String a cur) r
  end.

Definition split_nonempty (c : ascii) (s : string) : list string :=
  split_nonempty_go c "" s.

(** [a or b] on optional strings. *)
Definition or_else (a b : option string) : option string :=
  match a with
  | Some s => if bool_decide (s = "") then b else a
  | None => b
  end.

(** Truth value of an optional string: [None] and [""] are false. *)
Definition truthy (o : option string) : bool :=
  match o with
  | Some s => negb (bool_decide (s = ""))
  | None => false
  end.

(** [sorted(l)] on strings. *)
Definition sorted (l : list string) : list string :=
  merge_sort String.le l.

End Py.

(** ** Data model *)

(** The SQLAlchemy type classes the program tests with [isinstance]; every
    other class is [TOther]. *)
Inductive SqlType :=
| TString | TText | TUnicode | TUnicodeText
| TDate | TDateTime | TTimestamp
| TInteger | TBigInteger | TSmallInteger
| TBoolean
| TFloat | TNumeric
| TJson
| TLargeBinary
| TOther.

Definition _is_text_type (t : SqlType) : bool :=
  match t with TString | TText | TUnicode | TUnicodeText => true | _ => false end.

Definition _is_date_type (t : SqlType) : bool :=
  match t with TDate | TDateTime | TTimestamp => true | _ => false end.

Definition _is_int_type (t : SqlType) : bool :=
  match t with TInteger | TBigInteger | TSmallInteger => true | _ => false end.

Definition _is_num_type (t : SqlType) : bool :=
  match t with TFloat | TNumeric => true | _ => false end.

Definition _is_bool_type (t : SqlType) : bool :=
  match t with TBoolean => true | _ => false end.

Definition _is_json_type (t : SqlType) : bool :=
  match t with TJson => true | _ => false end.

Definition _is_binary_type (t : SqlType) : bool :=
  match t with TLargeBinary => true | _ => false end.

(** A column of a reflected [Table]: [identity] is [true] when the column
    carries an identity marker ([col.identity is not None]). *)
Record Column := {
  col_name : string;
  col_type : SqlType;
  col_identity : bool;
}.

(** A column dictionary of [get_columns]: the inspector's entries and the
    [is_pk] flag the program adds. *)
Record ColMeta := {
  cm_name : string;
  cm_type : SqlType;
  cm_nullable : bool;
  cm_default : option string;
  cm_autoincrement : bool;
  cm_is_pk : bool;
}.

(** A foreign-key constraint as the inspector reports it. *)
Record FkConstraint := {
  constrained_columns : list string;
  referred_schema : option string;
  referred_table : option string;
  referred_columns : list string;
}.

Record FkInfo := {
  ref_schema : string;
  ref_table : string;
  ref_fullname : string;
  ref_column : string;
}.

(** The inspector of the live store. [insp_columns] gives [is_pk] as
    [false]: [get_columns] sets it. *)
Record Inspector := {
  insp_schema_names : list string;
  insp_table_names : string -> list string;
  insp_pk_constraint : string -> string -> option (list string);
  insp_columns : string -> string -> list ColMeta;
  insp_foreign_keys : string -> string -> list FkConstraint;
  insp_reflect : string -> string -> list Column;
}.

(** ** SchemaCatalog *)

Section Catalog.
Variable insp : Inspector.

Definition is_system_schema (schema : string) : bool :=
  bool_decide (schema = "pg_catalog") || bool_decide (schema = "information_schema").

Definition get_tables : list string :=
  let tables :=
    flat_map (fun schema =>
                if is_system_schema schema then []
                else map (fun t => schema +:+ "." +:+ t) (insp_table_names insp schema))
             (insp_schema_names insp) in
  let tables :=
    match tables with
    | [] => map (fun t => "public." +:+ t) (insp_table_names insp "public")
    | _ => tables
    end in
  Py.sorted tables.

Definition parse_table (fullname : string) : string * string :=
  match Py.split_once "." fullname with
  | Some (schema, name) => (schema, name)
  | None => ("public", fullname)
  end.

Definition get_primary_key (fullname : string) : option (list string) :=
  let '(schema, name) := parse_table fullname in
  insp_pk_constraint insp name schema.

(** [get_primary_key(fullname) or []] *)
Definition primary_key_or_nil (fullname : string) : list string :=
  default [] (get_primary_key fullname).

Definition get_columns (fullname : string) : list ColMeta :=
  let '(schema, name) := parse_table fullname in
  let pks := primary_key_or_nil fullname in
  map (fun c =>
         {| cm_name := cm_name c; cm_type := cm_type c;
            cm_nullable := cm_nullable c; cm_default := cm_default c;
            cm_autoincrement := cm_autoincrement c;
            cm_is_pk := bool_decide (cm_name c ∈ pks) |})
      (insp_columns insp name schema).

Definition reflect_table (fullname : string) : list Column :=
  let '(schema, name) := parse_table fullname in
  insp_reflect insp name schema.

(** [table.c.get(name)] *)
Definition table_c_get (table : list Column) (name : string) : option Column :=
  find (fun c => bool_decide (col_name c = name)) table.

(** ** RelationshipResolver *)

Definition candidate_step (out : gmap string string) (full : string)
  : gmap string string :=
  let base := Py.lower (snd (parse_table full)) in
  let out := <[base := full]> out in
  if Py.endswith base "ies" then
    <[Py.drop_last 3 base +:+ "y" := full]> out
  else if Py.endswith base "s" && negb (Py.endswith base "ss") then
    <[Py.drop_last 1 base := full]> out
  else
    <[base +:+ "es" := full]> (<[base +:+ "s" := full]> out).

Definition _all_table_name_candidates : gmap string string :=
  fold_left candidate_step get_tables ∅.

Definition directional_prefixes : list string :=
  ["new_"; "old_"; "src_"; "dst_"; "from_"; "to_"; "target_"; "source_";
   "current_"; "prev_"; "next_"].

(** The loop over the prefixes: the first one [base] starts with is cut
    off and the loop is left. *)
Fixpoint strip_prefix (prefs : list string) (base : string) : string :=
  match prefs with
  | [] => base
  | pref :: rest =>
      if Py.startswith base pref then Py.drop (String.length pref) base
      else strip_prefix rest base
  end.

Definition find_by_pk (base_key : string) : option string :=
  find (fun full =>
          match primary_key_or_nil full with
          | [pk0] => bool_decide (Py.lower pk0 = base_key +:+ "_id")
          | _ => false
          end)
       get_tables.

(** The lookups on the base token that is left after the stripping: the
    candidate map, its last word, the primary-key names. *)
Definition resolve_base (base : string) : option string :=
  let candidates := _all_table_name_candidates in
  match candidates !! base with
  | Some full => Some full
  | None =>
      let last := Py.last_token "_" base in
      match (if Py.contains_char "_" base then candidates !! last else None) with
      | Some full => Some full
      | None =>
          let match1 := find_by_pk base in
          if Py.truthy match1 then match1
          else
            let match2 :=
              if Py.contains_char "_" base then find_by_pk last else None in
            if Py.truthy match2 then match2
            else candidates !! base
      end
  end.

Definition guess_ref_table_for_param (param_name : option string) : option string :=
  match param_name with
  | None => None
  | Some param_name =>
      if bool_decide (param_name = "") then None
      else
        let name := Py.lower param_name in
        if Py.endswith name "_id" then
          let base := Py.drop_last 3 name in
          let base := strip_prefix directional_prefixes base in
          resolve_base base
        else None
  end.

End Catalog.


(** ** Values, statements and the store *)

#[local] Unset Elimination Schemes.
Inductive Json :=
| JNull
| JBool (b : bool)
| JInt (z : Z)
| JFloat (f : spec_float)
| JStr (s : string)
| JList (l : list Json)
| JDict (l : list (string * Json)).
#[local] Set Elimination Schemes.

Inductive PyVal :=
| VNone
| VBool (b : bool)
| VInt (z : Z)
| VFloat (f : spec_float)
| VStr (s : string)
| VBytes (s : string)
| VJson (j : Json).

(** A result row, [dict(m)]: the columns in the order of the result. *)
Definition Row := list (string * PyVal).

(** A submitted form as the dictionary [dict(form)]: distinct keys in the
    order of submission. *)
Definition Form := list (string * string).

(** [form.get(name)] *)
Fixpoint form_get (name : string) (form : Form) : option string :=
  match form with
  | [] => None
  | (k, v) :: rest => if bool_decide (k = name) then Some v else form_get name rest
  end.

(** The label expression of an option query: one column, or two columns
    joined by one space. *)
Inductive LabelExpr :=
| LabelColumn (c : string)
| LabelConcat (a b : string).

Inductive Filter :=
| FIlikeAny (cols : list string) (like : string)
| FDateGe (col : string)
| FDateLe (col : string).

(** The statements the program sends to the store. [StText] is a textual
    statement, [text(sql)], with its bound parameters. *)
Inductive Stmt :=
| StText (sql : string) (binds : Form)
| StSelectOptions (table : string * string) (id_col : string) (label : LabelExpr) (limit : Z)
| StSelectAfterPk (table : string * string) (pk_col : string) (last_pk : Z) (max_rows : Z)
| StSelectWhere (table : string * string) (filters : list Filter) (limit : option Z) (binds : Form)
| StInsert (table : string * string) (values : gmap string PyVal).

(** What the driver reports with a failure. *)
Record Diag := {
  column_name : option string;
  constraint_name : option string;
  message_primary : option string;
  message_detail : option string;
  message_hint : option string;
}.

Record Orig := {
  sqlstate : option string;
  pgcode : option string;
  diag : option Diag;
}.

(** A [SQLAlchemyError]: its class, the driver's exception [orig] and
    [str(e)]. *)
Record DbError := {
  is_integrity_error : bool;
  is_data_error : bool;
  orig : option Orig;
  str_e : string;
}.

(** The store: queries read it, an insert or a call (with its commit)
    replaces it or fails and leaves it as it was. *)
Record Db := {
  Store : Type;
  db_query : Store -> Stmt -> DbError + list Row;
  db_exec : Store -> Stmt -> DbError + Store;
}.

(** What a handler does that the properties speak about. *)
Inductive Event :=
| EvExecute (s : Stmt)
| EvGuess (param_name : option string).

Record World (D : Db) := {
  w_store : Store D;
  w_log : list Event;
}.
Arguments w_store {D} _.
Arguments w_log {D} _.

Definition M (D : Db) (A : Type) : Type := World D -> (DbError + A) * World D.

Definition ret {D A} (a : A) : M D A := fun w => (inr a, w).

Definition raise {D A} (e : DbError) : M D A := fun w => (inl e, w).

Definition bind {D A B} (m : M D A) (k : A -> M D B) : M D B :=
  fun w =>
    match m w with
    | (inr a, w') => k a w'
    | (inl e, w') => (inl e, w')
    end.

Notation "x <- c1 ;; c2" := (bind c1 (fun x => c2))
  (at level 100, c1 at next level, right associativity).

(** [try: m except SQLAlchemyError as e: h e] *)
Definition catch {D A} (m : M D A) (h : DbError -> M D A) : M D A :=
  fun w =>
    match m w with
    | (inr a, w') => (inr a, w')
    | (inl e, w') => h e w'
    end.

Definition log_event {D} (ev : Event) : M D unit :=
  fun w => (inr tt, {| w_store := w_store w; w_log := w_log w ++ [ev] |}).

(** [with get_engine().connect() as conn: conn.execute(stmt)] for a query *)
Definition execute_query {D} (stmt : Stmt) : M D (list Row) :=
  fun w =>
    (db_query D (w_store w) stmt,
     {| w_store := w_store w; w_log := w_log w ++ [EvExecute stmt] |}).

(** [conn.execute(stmt); conn.commit()] *)
Definition execute_commit {D} (stmt : Stmt) : M D unit :=
  fun w =>
    match db_exec D (w_store w) stmt with
    | inr s' => (inr tt, {| w_store := s'; w_log := w_log w ++ [EvExecute stmt] |})
    | inl e => (inl e, {| w_store := w_store w; w_log := w_log w ++ [EvExecute stmt] |})
    end.

(** The library functions whose failures the program handles:
    [int(raw)], [float(raw)], [json.loads(raw)] give a value or the text
    of the exception; [csv_line] is the line a [csv] writer emits for the
    given cells. *)
Record Lib := {
  py_int : string -> string + Z;
  py_float : string -> string + spec_float;
  json_loads : string -> string + Json;
  csv_line : list PyVal -> string;
}.

(** ** Procedure parameters and their enrichment *)

Record Param := {
  p_name : option string;
  p_type : option string;
}.

Record OptionEntry := {
  opt_id : PyVal;
  opt_label : PyVal;
}.

(** The keys enrichment adds to a parameter, or to a column as its ["fk"]
    entry. *)
Record RefInfo := {
  ri_options : list OptionEntry;
  ri_ref_fullname : string;
  ri_id_col : string;
  ri_label_col : string;
}.

Record EnrichedParam := {
  ep_param : Param;
  ep_ref : option RefInfo;
}.

(** Explicit overrides: procedure name, parameter name, referenced table. *)
Definition PROCEDURE_PARAM_TABLE_OVERRIDES : gmap string (gmap string string) :=
  {[ "leader_transfer" :=
       <["new_leader_id" := "public.young_people"]>
         {[ "target_id" := "public.projects" ]} ]}.

Definition preferred : list string :=
  ["name"; "full_name"; "title"; "label"; "display_name"; "username"; "email";
   "description"].

(** [row[key]] of a result row; a missing column reads as [None]. *)
Definition row_get (key : string) (row : Row) : PyVal :=
  default VNone (snd <$> find (fun kv => bool_decide (fst kv = key)) row).

(** [row[0]] as a string, when it is one. *)
Definition row_str (i : nat) (row : Row) : option string :=
  match snd <$> row !! i with
  | Some (VStr s) => Some s
  | _ => None
  end.

Fixpoint mapM {D A B} (f : A -> M D B) (l : list A) : M D (list B) :=
  match l with
  | [] => ret []
  | x :: r => y <- f x ;; ys <- mapM f r ;; ret (y :: ys)
  end.

Section Handlers.
Variable insp : Inspector.
Variable D : Db.
Variable L : Lib.

Definition fk_step (schema : string) (mapping : gmap string FkInfo) (fk : FkConstraint)
  : gmap string FkInfo :=
  let local_cols := constrained_columns fk in
  let rschema :=
    match Py.or_else (referred_schema fk) (Some schema) with
    | Some s => if bool_decide (s = "") then "public" else s
    | None => "public"
    end in
  let ref_cols := referred_columns fk in
  match referred_table fk, local_cols, ref_cols with
  | Some rtable, _ :: _, rc0 :: _ =>
      if bool_decide (rtable = "") then mapping
      else
        fold_left
          (fun m '(i, lcol) =>
             <[lcol := {| ref_schema := rschema; ref_table := rtable;
                          ref_fullname := rschema +:+ "." +:+ rtable;
                          ref_column := default rc0 (ref_cols !! i) |}]> m)
          (imap (fun i lcol => (i, lcol)) local_cols) mapping
  | _, _, _ => mapping
  end.

Definition get_foreign_keys (fullname : string) : gmap string FkInfo :=
  let '(schema, name) := parse_table fullname in
  fold_left (fk_step schema) (insp_foreign_keys insp name schema) ∅.

(** ** LabelPicker *)

Definition has_name (name : string) (cols : list ColMeta) : bool :=
  bool_decide (Exists (fun c => Py.lower (cm_name c) = name) cols).

Definition pick_label_column (fullname : string) : string :=
  let cols := get_columns insp fullname in
  let pk_cols := primary_key_or_nil insp fullname in
  let text_cols := filter (fun c => _is_text_type (cm_type c) = true) cols in
  if has_name "first_name" text_cols && has_name "last_name" text_cols then
    "first_name last_name"
  else
    match
      omap (fun pname =>
              find (fun c => bool_decide (Py.lower (cm_name c) = pname)) text_cols)
           preferred
    with
    | c :: _ => cm_name c
    | [] =>
        match text_cols with
        | c :: _ => cm_name c
        | [] =>
            match pk_cols with
            | pk0 :: _ => pk0
            | [] =>
                match cols with
                | c :: _ => cm_name c
                | [] => "id"
                end
            end
        end
    end.

(** ** OptionsFetcher *)

Definition label_expr (table : list Column) (label_col : string) : option LabelExpr :=
  let composite :=
    if Py.contains_char " " label_col then
      match Py.split_nonempty " " label_col with
      | [a; b] =>
          match table_c_get table a, table_c_get table b with
          | Some _, Some _ => Some (LabelConcat a b)
          | _, _ => None
          end
      | _ => None
      end
    else None in
  match composite with
  | Some e => Some e
  | None => (fun _ => LabelColumn label_col) <$> table_c_get table label_col
  end.

Definition fetch_fk_options (fullname id_col label_col : string) (limit : Z)
  : M D (list OptionEntry) :=
  let table := reflect_table insp fullname in
  match table_c_get table id_col, label_expr table label_col with
  | Some _, Some label_c =>
      rows <- execute_query (StSelectOptions (parse_table fullname) id_col label_c limit) ;;
      ret (map (fun m => {| opt_id := row_get "id" m; opt_label := row_get "label" m |}) rows)
  | _, _ => ret []
  end.

(** [try: fetch_fk_options(...) except Exception: []] *)
Definition options_or_nil (ref_full id_col label_col : string) : M D (list OptionEntry) :=
  catch (fetch_fk_options ref_full id_col label_col 200) (fun _ => ret []).

(** ** Enrichment of procedure parameters *)

Definition override_for (proc : string) (param_name : option string) : option string :=
  m ← PROCEDURE_PARAM_TABLE_OVERRIDES !! proc;
  n ← param_name;
  m !! n.

(** The referenced table of a parameter: the override when there is one,
    the guess from the name otherwise. *)
Definition resolve_ref (proc : string) (param_name : option string) : M D (option string) :=
  let ref_full := override_for proc param_name in
  if negb (Py.truthy ref_full) then
    _ <- log_event (EvGuess param_name) ;;
    ret (guess_ref_table_for_param insp param_name)
  else ret ref_full.

Definition enrich_param (proc : string) (p : Param) : M D EnrichedParam :=
  ref_full <- resolve_ref proc (p_name p) ;;
  match ref_full with
  | Some ref_full =>
      if bool_decide (ref_full = "") then ret {| ep_param := p; ep_ref := None |}
      else
        match get_primary_key insp ref_full with
        | Some (id_name :: _) =>
            let label_col := pick_label_column ref_full in
            options <- options_or_nil ref_full id_name label_col ;;
            ret {| ep_param := p;
                   ep_ref := Some {| ri_options := options; ri_ref_fullname := ref_full;
                                     ri_id_col := id_name; ri_label_col := label_col |} |}
        | _ => ret {| ep_param := p; ep_ref := None |}
        end
  | None => ret {| ep_param := p; ep_ref := None |}
  end.

Definition enrich_procedures_with_options (procedures : list (string * list Param))
  : M D (list (string * list EnrichedParam)) :=
  mapM (fun '(proc, params) =>
          new_params <- mapM (enrich_param proc) params ;;
          ret (proc, new_params))
       procedures.

(** ** Insertable columns *)

Definition is_nextval (default : option string) : bool :=
  match default with
  | Some d => Py.startswith (Py.lower d) "nextval("
  | None => false
  end.

Definition insert_column (table : list Column) (fk_map : gmap string FkInfo) (c : ColMeta)
  : M D (list (ColMeta * option RefInfo)) :=
  let name := cm_name c in
  match table_c_get table name with
  | None => ret []
  | Some col =>
      if cm_is_pk c && cm_autoincrement c then ret []
      else if is_nextval (cm_default c) then ret []
      else if col_identity col then ret []
      else
        match fk_map !! name with
        | Some fk =>
            let ref_full := ref_fullname fk in
            let ref_id := ref_column fk in
            let ref_label := pick_label_column ref_full in
            options <- options_or_nil ref_full ref_id ref_label ;;
            ret [(c, Some {| ri_options := options; ri_ref_fullname := ref_full;
                             ri_id_col := ref_id; ri_label_col := ref_label |})]
        | None => ret [(c, None)]
        end
  end.

Definition build_insert_columns (fullname : string) : M D (list (ColMeta * option RefInfo)) :=
  let table := reflect_table insp fullname in
  let cols_meta := get_columns insp fullname in
  let fk_map := get_foreign_keys fullname in
  visible <- mapM (insert_column table fk_map) cols_meta ;;
  ret (concat visible).

(** ** TypeCoercer *)

Definition is_blank (raw : option string) : bool :=
  match raw with
  | None => true
  | Some s => bool_decide (s = "")
  end.

(** The conversion of a non-blank raw value by the type of its column: the
    value, or the text of the exception. *)
Definition convert (t : SqlType) (raw : string) : string + PyVal :=
  if _is_int_type t then sum_map id VInt (py_int L raw)
  else if _is_num_type t then sum_map id VFloat (py_float L raw)
  else if _is_bool_type t then
    inr (VBool (bool_decide (raw ∈ ["on"; "true"; "1"; "True"])))
  else if _is_date_type t then inr (VStr raw)
  else if _is_json_type t then sum_map id VJson (json_loads L raw)
  else if _is_binary_type t then inr (VBytes raw)
  else inr (VStr raw).

(** One turn of the loop over the columns of the table, on the
    dictionaries [values] and [errors]. *)
Definition coerce_step (fullname : string) (form : Form)
    (acc : gmap string PyVal * gmap string string) (col : Column)
  : gmap string PyVal * gmap string string :=
  let '(values, errors) := acc in
  let name := col_name col in
  let raw := form_get name form in
  if bool_decide (name ∈ primary_key_or_nil insp fullname) && is_blank raw then
    (values, errors)
  else
    match raw with
    | Some raw' =>
        if bool_decide (raw' = "") then
          (<[name := if _is_bool_type (col_type col) then VBool false else VNone]> values,
           errors)
        else
          match convert (col_type col) raw' with
          | inr v => (<[name := v]> values, errors)
          | inl ex => (values, <[name := "Invalid value: " +:+ ex]> errors)
          end
    | None =>
        (<[name := if _is_bool_type (col_type col) then VBool false else VNone]> values,
         errors)
    end.

Definition coerce_form (fullname : string) (form : Form)
  : gmap string PyVal * gmap string string :=
  fold_left (coerce_step fullname form) (reflect_table insp fullname) (∅, ∅).

(** ** ConstraintErrorMapper *)

Definition constraint_suffix (cons : option string) : string :=
  if Py.truthy cons then " (" +:+ default "" cons +:+ ")" else "".

(** [getattr(orig, "diag", None)], [None] also when there is no [orig] *)
Definition error_diag (e : DbError) : option Diag := orig e ≫= diag.

Definition error_message (e : DbError) : string :=
  let d := error_diag e in
  let primary := d ≫= message_primary in
  let detail := d ≫= message_detail in
  let hint := d ≫= message_hint in
  let msg := default (str_e e) (Py.or_else primary None) in
  let msg := if Py.truthy detail then msg +:+ " — " +:+ default "" detail else msg in
  if Py.truthy hint then msg +:+ " (hint: " +:+ default "" hint +:+ ")" else msg.

Definition error_sqlstate (e : DbError) : option string :=
  Py.or_else (orig e ≫= sqlstate) (orig e ≫= pgcode).

(** The error dictionary [err_map] built from a failed insert. *)
Definition constraint_error_map (e : DbError) : gmap string string :=
  let sqlstate := error_sqlstate e in
  let d := error_diag e in
  let col := d ≫= column_name in
  let cons := d ≫= constraint_name in
  let msg := error_message e in
  let field := default "" col in
  if is_integrity_error e || is_data_error e || Py.truthy sqlstate then
    if bool_decide (sqlstate = Some "23502") && Py.truthy col then
      {[ field := "Required (NOT NULL)." ]}
    else if bool_decide (sqlstate = Some "23505") then
      {[ "_global" := "Unique constraint violated" +:+ constraint_suffix cons +:+ ". " +:+ msg ]}
    else if bool_decide (sqlstate = Some "23503") then
      if Py.truthy col then {[ field := "Invalid reference (foreign key)." ]}
      else {[ "_global" :=
                "Foreign key constraint violated" +:+ constraint_suffix cons +:+ ". " +:+ msg ]}
    else if bool_decide (sqlstate = Some "23514") then
      {[ "_global" := "Check constraint violated" +:+ constraint_suffix cons +:+ ". " +:+ msg ]}
    else if bool_decide (sqlstate = Some "22001") then
      if Py.truthy col then {[ field := "Value too long for this column." ]}
      else {[ "_global" := msg ]}
    else if bool_decide (sqlstate = Some "22003") then
      if Py.truthy col then {[ field := "Numeric value out of range." ]}
      else {[ "_global" := msg ]}
    else
      if Py.truthy col then {[ field := msg ]} else {[ "_global" := msg ]}
  else {[ "_global" := str_e e ]}.

(** ** Insert *)

Inductive InsertOutcome :=
| RenderInsertForm (cols : list (ColMeta * option RefInfo))
    (errors : gmap string string) (prev : Form)
| RenderInsertSuccess (values : gmap string PyVal)
| InsertHttpError (status : nat) (detail : string).

Definition qualify (table_name : string) : string :=
  if Py.contains_char "." table_name then table_name else "public." +:+ table_name.

Definition insert_post (table_name : string) (form : Form) : M D InsertOutcome :=
  let fullname := qualify table_name in
  catch
    (let '(values, errors) := coerce_form fullname form in
     if negb (bool_decide (errors = ∅)) then
       cols_meta <- build_insert_columns fullname ;;
       ret (RenderInsertForm cols_meta errors form)
     else
       catch
         (_ <- execute_commit (StInsert (parse_table fullname) values) ;;
          ret (RenderInsertSuccess values))
         (fun e =>
            cols_meta <- build_insert_columns fullname ;;
            ret (RenderInsertForm cols_meta (constraint_error_map e) form)))
    (fun e => ret (InsertHttpError 500 (str_e e))).

(** ** Procedures: listing and call *)

(** [d[k] = v] on a dictionary that keeps the order of its keys. *)
Fixpoint dict_set {A} (k : string) (v : A) (d : list (string * A)) : list (string * A) :=
  match d with
  | [] => [(k, v)]
  | (k', v') :: r => if bool_decide (k' = k) then (k, v) :: r else (k', v') :: dict_set k v r
  end.

(** The text an f-string gives for a cell of the catalogue. *)
Definition cell_text (v : option PyVal) : string :=
  match v with
  | Some (VStr s) => s
  | _ => "None"
  end.

Definition routines_sql : string :=
  "SELECT routine_name, specific_name FROM information_schema.routines WHERE routine_type = 'PROCEDURE' AND specific_schema = 'public'".

Definition parameters_sql (specific_name : string) : string :=
  "SELECT parameter_name, data_type FROM information_schema.parameters WHERE specific_name = '"
    +:+ specific_name +:+ "'".

Fixpoint procedures_loop (res : list Row) (procedures : list (string * list Param))
  : M D (list (string * list Param)) :=
  match res with
  | [] => ret procedures
  | row :: rest =>
      match row_str 0 row with
      | None => procedures_loop rest procedures
      | Some proc_name =>
          let specific_name := cell_text (snd <$> row !! 1%nat) in
          params_res <- execute_query (StText (parameters_sql specific_name) []) ;;
          let params :=
            map (fun p_row => {| p_name := row_str 0 p_row; p_type := row_str 1 p_row |})
                params_res in
          procedures_loop rest (dict_set proc_name params procedures)
      end
  end.

Definition get_procedures_with_params : M D (list (string * list Param)) :=
  res <- execute_query (StText routines_sql []) ;;
  procedures_loop res [].

Inductive CallOutcome :=
| CallSuccess (message : string)
| CallHttpError (status : nat) (detail : string).

(** The text of the CALL statement: the name as it came, and one
    placeholder per key of the form. *)
Definition call_sql (proc_name : string) (params : Form) : string :=
  let param_names := Py.join ", " (map (fun p => ":" +:+ fst p) params) in
  "CALL " +:+ proc_name +:+ "(" +:+ param_names +:+ ")".

Definition call_procedure (proc_name : string) (form_data : Form) : M D CallOutcome :=
  let params := form_data in
  catch
    (_ <- execute_commit (StText (call_sql proc_name params) params) ;;
     ret (CallSuccess ("Procedure '" +:+ proc_name +:+ "' executed successfully.")))
    (fun e => ret (CallHttpError 500 (str_e e))).

(** ** ChangeCursor *)

Definition select_new_rows_after_pk (fullname : string) (last_pk : Z) (max_rows : Z)
  : M D (list Row) :=
  let table := reflect_table insp fullname in
  match primary_key_or_nil insp fullname with
  | [pk_name] =>
      match table_c_get table pk_name with
      | None => ret []
      | Some _ =>
          execute_query (StSelectAfterPk (parse_table fullname) pk_name last_pk max_rows)
      end
  | _ => ret []
  end.

Inductive NewRowsOutcome :=
| NewRowsMessage (rows : list Row) (message : string)
| NewRows (rows : list Row) (pk : string)
| NewRowsHttpError (status : nat) (detail : string).

Definition unsupported_message : string :=
  "Watching requires a single-column primary key.".

Definition api_new_rows (table_name : string) (after_pk : option Z) (max_rows : Z)
  : M D NewRowsOutcome :=
  let fullname := qualify table_name in
  match primary_key_or_nil insp fullname with
  | [pk0] =>
      match after_pk with
      | None => ret (NewRowsMessage [] "Provide after_pk to watch for new rows.")
      | Some after_pk =>
          catch
            (rows <- select_new_rows_after_pk fullname after_pk max_rows ;;
             ret (NewRows rows pk0))
            (fun e => ret (NewRowsHttpError 500 (str_e e)))
      end
  | _ => ret (NewRowsMessage [] unsupported_message)
  end.

(** ** FilterBuilder and export *)

Definition pick_date_column (table : list Column) (date_col : option string) : option Column :=
  let requested :=
    if Py.truthy date_col then
      c ← table_c_get table (default "" date_col);
      if _is_date_type (col_type c) then Some c else None
    else None in
  match requested with
  | Some c => Some c
  | None => find (fun c => _is_date_type (col_type c)) table
  end.

Definition build_filters (fullname : string) (q date_from date_to date_col : option string)
  : list Column * list Filter :=
  let table := reflect_table insp fullname in
  let text_filter :=
    if Py.truthy q then
      match filter (fun c => _is_text_type (col_type c) = true) table with
      | [] => []
      | text_cols => [FIlikeAny (map col_name text_cols) ("%" +:+ default "" q +:+ "%")]
      end
    else [] in
  let date_filter :=
    if Py.truthy date_from || Py.truthy date_to then
      match pick_date_column table date_col with
      | Some dcol =>
          (if Py.truthy date_from then [FDateGe (col_name dcol)] else [])
            ++ (if Py.truthy date_to then [FDateLe (col_name dcol)] else [])
      | None => []
      end
    else [] in
  (table, text_filter ++ date_filter).

(** The generator [row_iter]: [output] is the text buffer, [writer] the
    field names once the first row has been seen; the result is the list
    of the chunks it yields. *)
Fixpoint row_iter_loop (rows : list Row) (output : string) (writer : option (list string))
  : list string :=
  match rows with
  | [] => []
  | row :: rest =>
      let '(fieldnames, output, header) :=
        match writer with
        | None =>
            let fieldnames := map fst row in
            let output := output +:+ csv_line L (map VStr fieldnames) in
            let data := output in
            (fieldnames, "", [data])
        | Some fieldnames => (fieldnames, output, [])
        end in
      let output := output +:+ csv_line L (map (fun k => row_get k row) fieldnames) in
      let data := output in
      header ++ data :: row_iter_loop rest "" (Some fieldnames)
  end.

Definition row_iter (stmt : Stmt) : M D (list string) :=
  res <- execute_query stmt ;;
  ret (row_iter_loop res "" None).

Definition bind_params (date_from date_to : option string) : Form :=
  (if Py.truthy date_from then [("date_from", default "" date_from)] else [])
    ++ (if Py.truthy date_to then [("date_to", default "" date_to)] else []).

(** The streamed response of an export: the file name of the header and
    the chunks of the body. *)
Record ExportResponse := {
  filename : string;
  body : list string;
}.

(** The statement of an export: the filtered select, limited when a limit
    is given. *)
Definition export_stmt (table_name : string) (q date_from date_to date_col : option string)
    (limit : option Z) : Stmt :=
  let fullname := qualify table_name in
  let '(_, filters) := build_filters fullname q date_from date_to date_col in
  let limit := match limit with Some 0%Z => None | _ => limit end in
  StSelectWhere (parse_table fullname) filters limit (bind_params date_from date_to).

Definition export_csv (table_name : string) (q date_from date_to date_col : option string)
    (limit : option Z) : M D ExportResponse :=
  let stmt := export_stmt table_name q date_from date_to date_col limit in
  chunks <- row_iter stmt ;;
  ret {| filename := Py.replace_char "." "_" table_name +:+ ".csv"; body := chunks |}.

End Handlers.

(** ** Views, the operations page, pages of a table, the timeline *)

(** [d[k]] on a dictionary that keeps the order of its keys. *)
Definition dict_get {A} (k : string) (d : list (string * A)) : option A :=
  snd <$> find (fun kv => bool_decide (kv.1 = k)) d.

Definition views_sql : string :=
  "SELECT table_name FROM information_schema.views WHERE table_schema = 'public'".

(** The select of a page of rows, as [select_rows] builds it: the
    filters, the primary-key columns to order by, descending, the limit,
    the offset and the bound parameters. *)
Record PageSelect := {
  ps_table : string * string;
  ps_columns : list string;
  ps_filters : list Filter;
  ps_order_by_desc : list string;
  ps_limit : Z;
  ps_offset : Z;
  ps_binds : Form;
}.

Inductive OperationsOutcome :=
| RenderOperations (views : list string) (procedures : list (string * list EnrichedParam))
| OperationsHttpError (status : nat) (detail : string).

Section Pages.
Variable insp : Inspector.
Variable D : Db.

(** The view names of the catalogue, the rows without a name left out. *)
Definition get_views : M D (list string) :=
  res <- execute_query (StText views_sql []) ;;
  ret (Py.sorted (omap (row_str 0) res)).

Definition list_operations : M D OperationsOutcome :=
  catch
    (views <- get_views ;;
     procedures_raw <- get_procedures_with_params D ;;
     procedures <- enrich_procedures_with_options insp D procedures_raw ;;
     ret (RenderOperations views procedures))
    (fun e => ret (OperationsHttpError 500 (str_e e))).

(** The statement of [select_rows], before it is executed. *)
Definition select_rows_stmt (fullname : string) (limit offset : Z) (order_by_pk_desc : bool)
    (q date_from date_to date_col : option string) : PageSelect :=
  let '(table, filters) := build_filters insp fullname q date_from date_to date_col in
  let pk_cols :=
    if order_by_pk_desc then
      filter (fun cname => is_Some (table_c_get table cname)) (primary_key_or_nil insp fullname)
    else [] in
  {| ps_table := parse_table fullname;
     ps_columns := map col_name table;
     ps_filters := filters;
     ps_order_by_desc := pk_cols;
     ps_limit := limit;
     ps_offset := offset;
     ps_binds := bind_params date_from date_to |}.

(** The statement of the table page: [offset = (page - 1) * limit]. *)
Definition view_table_stmt (table_name : string) (limit page : Z)
    (q date_from date_to date_col : option string) : PageSelect :=
  select_rows_stmt (qualify table_name) limit ((page - 1) * limit) true
    q date_from date_to date_col.

(** The date column of the timeline and the name shown for it, or the
    400 response when the table has none. *)
Definition timeline_date_column (table_name : string) (date_col : option string)
  : (nat * string) + (Column * option string) :=
  let table := reflect_table insp (qualify table_name) in
  let requested :=
    if Py.truthy date_col then
      c ← table_c_get table (default "" date_col);
      if _is_date_type (col_type c) then Some c else None
    else None in
  match requested with
  | Some c => inr (c, date_col)
  | None =>
      match find (fun c => _is_date_type (col_type c)) table with
      | Some c => inr (c, Some (col_name c))
      | None => inl (400%nat, "No date/datetime column found. Provide ?date_col=")
      end
  end.

End Pages.

(** ** A sample catalogue, store and library

    A small schema in the style of the project's database, used to run the
    model on concrete inputs. *)

Module Sample.

Definition column (name : string) (t : SqlType) : ColMeta :=
  {| cm_name := name; cm_type := t; cm_nullable := true; cm_default := None;
     cm_autoincrement := false; cm_is_pk := false |}.

Definition serial (name : string) (seq : string) : ColMeta :=
  {| cm_name := name; cm_type := TInteger; cm_nullable := false;
     cm_default := Some ("nextval('" +:+ seq +:+ "'::regclass)");
     cm_autoincrement := true; cm_is_pk := false |}.

Definition columns_of (name : string) : list ColMeta :=
  if bool_decide (name = "investors") then
    [serial "investor_id" "investors_investor_id_seq"; column "name" TText;
     column "active" TBoolean; column "shares" TInteger; column "joined" TDate;
     {| cm_name := "ticket"; cm_type := TInteger; cm_nullable := false;
        cm_default := Some "NEXTVAL('ticket_seq'::regclass)";
        cm_autoincrement := false; cm_is_pk := false |};
     column "badge" TInteger; column "sponsor_id" TInteger]
  else if bool_decide (name = "young_people") then
    [serial "person_id" "young_people_person_id_seq"; column "name" TText;
     column "first_name" TString; column "last_name" TString]
  else if bool_decide (name = "staff") then
    [serial "staff_id" "staff_staff_id_seq"; column "first_name" TOther;
     column "last_name" TOther; column "name" TText]
  else if bool_decide (name = "leader") then
    [serial "leader_id" "leader_leader_id_seq"; column "title" TText]
  else if bool_decide (name = "projects") then
    [serial "project_id" "projects_project_id_seq"; column "title" TText]
  else if bool_decide (name = "flags") then
    [column "enabled" TBoolean; column "note" TText]
  else if bool_decide (name = "memberships") then
    [column "person_id" TInteger; column "project_id" TInteger]
  else [].

Definition pk_of (name : string) : option (list string) :=
  if bool_decide (name = "investors") then Some ["investor_id"]
  else if bool_decide (name = "young_people") then Some ["person_id"]
  else if bool_decide (name = "staff") then Some ["staff_id"]
  else if bool_decide (name = "leader") then Some ["leader_id"]
  else if bool_decide (name = "projects") then Some ["project_id"]
  else if bool_decide (name = "flags") then Some ["enabled"]
  else if bool_decide (name = "memberships") then Some ["person_id"; "project_id"]
  else None.

Definition insp : Inspector :=
  {| insp_schema_names := ["information_schema"; "public"];
     insp_table_names := fun schema =>
       if bool_decide (schema = "public") then
         ["investors"; "young_people"; "staff"; "leader"; "projects"; "flags";
          "memberships"]
       else ["columns"];
     insp_pk_constraint := fun name _ => pk_of name;
     insp_columns := fun name _ => columns_of name;
     insp_foreign_keys := fun name _ =>
       if bool_decide (name = "investors") then
         [{| constrained_columns := ["sponsor_id"]; referred_schema := Some "public";
             referred_table := Some "young_people"; referred_columns := ["person_id"] |}]
       else [];
     insp_reflect := fun name _ =>
       map (fun c => {| col_name := cm_name c; col_type := cm_type c;
                        col_identity := bool_decide (cm_name c = "badge") |})
           (columns_of name) |}.

Definition unique_violation : DbError :=
  {| is_integrity_error := true; is_data_error := false;
     orig := Some {| sqlstate := Some "23505"; pgcode := None;
                     diag := Some {| column_name := Some "name";
                                     constraint_name := Some "investors_name_key";
                                     message_primary := Some "duplicate key value";
                                     message_detail := Some "Key (name)=(dup) already exists.";
                                     message_hint := None |} |};
     str_e := "(psycopg.errors.UniqueViolation) duplicate key value" |}.

(** The store: the rows inserted so far. An insert of the name ["dup"] is
    a unique violation; the catalogue knows one procedure. *)
Definition db : Db :=
  {| Store := list (gmap string PyVal);
     db_query := fun _ stmt =>
       match stmt with
       | StText sql _ =>
           if bool_decide (sql = routines_sql) then
             inr [[("routine_name", VStr "leader_transfer");
                   ("specific_name", VStr "leader_transfer_16400")]]
           else if bool_decide (sql = parameters_sql "leader_transfer_16400") then
             inr [[("parameter_name", VStr "new_leader_id"); ("data_type", VStr "integer")];
                  [("parameter_name", VStr "target_id"); ("data_type", VStr "integer")]]
           else inr []
       | StSelectOptions _ _ _ _ => inr [[("id", VInt 1); ("label", VStr "Ada Lovelace")]]
       | _ => inr []
       end;
     db_exec := fun store stmt =>
       match stmt with
       | StInsert _ values =>
           match values !! "name" with
           | Some (VStr s) =>
               if bool_decide (s = "dup") then inl unique_violation
               else inr (values :: store)
           | _ => inr (values :: store)
           end
       | _ => inr store
       end |}.

Fixpoint decimal (acc : Z) (s : string) : option Z :=
  match s with
  | EmptyString => Some acc
  | String c r =>
      match Ascii.is_nat c with
      | Some d => decimal (10 * acc + Z.of_nat d) r
      | None => None
      end
  end.

Definition int_of (raw : string) : string + Z :=
  match raw with
  | EmptyString => inl "invalid literal for int() with base 10: ''"
  | _ =>
      match decimal 0 raw with
      | Some z => inr z
      | None => inl ("invalid literal for int() with base 10: '" +:+ raw +:+ "'")
      end
  end.

Definition cell (v : PyVal) : string :=
  match v with
  | VStr s => s
  | VBool true => "True"
  | VBool false => "False"
  | _ => ""
  end.

(** Decimal literals for [int]; no text is accepted as a float or as JSON. *)
Definition lib : Lib :=
  {| py_int := int_of;
     py_float := fun raw => inl ("could not convert string to float: '" +:+ raw +:+ "'");
     json_loads := fun _ => inl "Expecting value: line 1 column 1 (char 0)";
     csv_line := fun cells =>
       Py.join "," (map cell cells) +:+ String "013" (String "010" "") |}.

Definition world0 : World db := {| w_store := ([] : Store db); w_log := [] |}.

End Sample.

(** ** Further sample values *)

Definition sample_fk : FkInfo :=
  {| ref_schema := "public"; ref_table := "young_people";
     ref_fullname := "public.young_people"; ref_column := "person_id" |}.

(** ** Predicates of the statements below *)

(** The keys a table contributes to the candidate map. *)
Definition is_variant_of (k full : string) : Prop :=
  let base := Py.lower (parse_table full).2 in
  k = base \/ k = Py.drop_last 3 base +:+ "y" \/ k = Py.drop_last 1 base
  \/ k = base +:+ "s" \/ k = base +:+ "es".



Definition is_text_query (ev : Event) : bool :=
  match ev with
  | EvExecute (StText _ _) => true
  | _ => false
  end.

Definition is_enrich_event (ev : Event) : bool :=
  match ev with
  | EvExecute (StSelectOptions _ _ _ _) => true
  | EvGuess _ => true
  | _ => false
  end.

(** A computation that always returns a value that satisfies [Q], leaves
    the store as it was and logs only events that satisfy [E]. *)
Definition returns {D A} (E : Event -> Prop) (Q : A -> Prop) (m : M D A) : Prop :=
  forall w : World D,
    exists (a : A) (evs : list Event),
      m w = (inr a, {| w_store := w_store w; w_log := w_log w ++ evs |})
      /\ Forall E evs /\ Q a.

(** What enrichment adds to a parameter: a reference to a table that has
    a primary key, by its first key column and the label of the table. *)
Definition enrich_invariant (insp : Inspector) (proc : string) (p : Param)
    (e : EnrichedParam) : Prop :=
  ep_param e = p
  /\ forall ri, ep_ref e = Some ri ->
       ri_ref_fullname ri <> ""
       /\ (exists pks, get_primary_key insp (ri_ref_fullname ri) = Some (ri_id_col ri :: pks))
       /\ ri_label_col ri = pick_label_column insp (ri_ref_fullname ri)
       /\ (override_for proc (p_name p) = Some (ri_ref_fullname ri)
           \/ (guess_ref_table_for_param insp (p_name p) = Some (ri_ref_fullname ri)
               /\ ri_ref_fullname ri ∈ get_tables insp)).

(** ** Effects of a computation, for the statements below *)

Definition is_options_query (ev : Event) : bool :=
  match ev with
  | EvExecute (StSelectOptions _ _ _ _) => true
  | _ => false
  end.

(** A computation that always returns, leaves the store as it was and
    sends nothing but option queries. *)
Definition reads_options {D A} (m : M D A) : Prop :=
  forall w : World D,
    exists (a : A) (evs : list Event),
      m w = (inr a, {| w_store := w_store w; w_log := w_log w ++ evs |})
      /\ Forall (fun ev => is_options_query ev = true) evs.

(** * Properties *)

(** ** Strings *)

Lemma startswith_app (s p : string) :
  Py.startswith s p = true -> s = p +:+ Py.drop (String.length p) s.
Proof.
  revert s. induction p as [|a p IH]; intros s H.
  - reflexivity.
  - destruct s as [|b s]; simpl in H; [discriminate|].
    destruct (ascii_dec a b) as [->|]; [|discriminate].
    change (String b s = String b (p +:+ Py.drop (String.length p) s)).
    f_equal. now apply IH.
Qed.

Lemma startswith_nil_false (s p : string) :
  Py.startswith s p = false -> p <> "".
Proof. intros H ->. destruct s; discriminate. Qed.

(** The loop over a list of prefixes either finds none and leaves the
    token alone, or cuts off exactly the first one that matches. *)
Lemma strip_prefix_spec (prefs : list string) (base : string) :
  (Forall (fun p => Py.startswith base p = false) prefs
   /\ strip_prefix prefs base = base)
  \/ (exists (i : nat) (p : string),
        prefs !! i = Some p
        /\ base = p +:+ strip_prefix prefs base
        /\ forall (j : nat) (q : string),
             (j < i)%nat -> prefs !! j = Some q -> Py.startswith base q = false).
Proof.
  induction prefs as [|pref rest IH]; simpl.
  - left. split; [constructor | reflexivity].
  - destruct (Py.startswith base pref) eqn:Hp.
    + right. exists 0%nat, pref. split; [reflexivity|]. split.
      * now apply startswith_app.
      * intros j q Hj. lia.
    + destruct IH as [[Hall Heq] | (i & p & Hi & Hb & Hfirst)].
      * left. split; [now constructor | exact Heq].
      * right. exists (S i), p. split; [exact Hi|]. split; [exact Hb|].
        intros [|j] q Hj Hq; simpl in Hq.
        -- now inversion Hq; subst.
        -- apply (Hfirst j q); [lia | exact Hq].
Qed.

(** ** C3: one directional prefix at most *)

(** C3. For a parameter name that ends in ["_id"] the resolver looks up
    the base token from which the loop over the ordered prefixes
    [new_, old_, src_, dst_, from_, to_, target_, source_, current_,
    prev_, next_] has removed at most one prefix: either no listed prefix
    matches and the token is unchanged, or the token is exactly the first
    matching prefix followed by what is looked up, so that nothing more is
    cut off, whatever the remainder begins with. *)
Theorem guess_strips_first_prefix_only (insp : Inspector) (param_name : string) :
  param_name <> "" ->
  Py.endswith (Py.lower param_name) "_id" = true ->
  let base := Py.drop_last 3 (Py.lower param_name) in
  let stripped := strip_prefix directional_prefixes base in
  guess_ref_table_for_param insp (Some param_name) = resolve_base insp stripped
  /\ ((Forall (fun p => Py.startswith base p = false) directional_prefixes
       /\ stripped = base)
      \/ (exists (i : nat) (p : string),
            directional_prefixes !! i = Some p
            /\ base = p +:+ stripped
            /\ forall (j : nat) (q : string),
                 (j < i)%nat -> directional_prefixes !! j = Some q ->
                 Py.startswith base q = false)).
Proof.
  intros Hne Hid base stripped. split.
  - unfold guess_ref_table_for_param.
    rewrite bool_decide_eq_false_2 by exact Hne.
    now rewrite Hid.
  - apply strip_prefix_spec.
Qed.

Lemma guess_strips_first_prefix_only_witness :
  "new_old_x_id" <> ""
  /\ Py.endswith (Py.lower "new_old_x_id") "_id" = true
  /\ strip_prefix directional_prefixes "new_old_x" = "old_x"
  /\ (guess_ref_table_for_param Sample.insp (Some "new_old_x_id")
      = resolve_base Sample.insp (strip_prefix directional_prefixes "new_old_x")
      /\ ((Forall (fun p => Py.startswith "new_old_x" p = false) directional_prefixes
           /\ strip_prefix directional_prefixes "new_old_x" = "new_old_x")
          \/ (exists (i : nat) (p : string),
                directional_prefixes !! i = Some p
                /\ "new_old_x" = p +:+ strip_prefix directional_prefixes "new_old_x"
                /\ forall (j : nat) (q : string),
                     (j < i)%nat -> directional_prefixes !! j = Some q ->
                     Py.startswith "new_old_x" q = false))).
Proof.
  split; [discriminate|]. split; [reflexivity|]. split; [reflexivity|].
  apply (guess_strips_first_prefix_only Sample.insp "new_old_x_id");
    [discriminate | reflexivity].
Defined.

(** ** The effects of the option queries *)

Lemma world_app_nil {D} (w : World D) :
  {| w_store := w_store w; w_log := w_log w ++ [] |} = w.
Proof. destruct w; simpl. now rewrite app_nil_r. Qed.

Lemma reads_ret {D A} (a : A) : reads_options (ret (D:=D) a).
Proof.
  intros w. exists a, []. split; [|constructor].
  unfold ret. now rewrite world_app_nil.
Qed.

Lemma reads_bind {D A B} (m : M D A) (k : A -> M D B) :
  reads_options m -> (forall a, reads_options (k a)) -> reads_options (bind m k).
Proof.
  intros Hm Hk w. destruct (Hm w) as (a & evs1 & E1 & F1).
  destruct (Hk a {| w_store := w_store w; w_log := w_log w ++ evs1 |})
    as (b & evs2 & E2 & F2).
  exists b, (evs1 ++ evs2). split.
  - unfold bind. rewrite E1, E2. simpl. now rewrite app_assoc.
  - now apply Forall_app.
Qed.

Lemma reads_mapM {D A B} (f : A -> M D B) (l : list A) :
  (forall x, reads_options (f x)) -> reads_options (mapM f l).
Proof.
  intros Hf. induction l as [|x l IH]; simpl.
  - apply reads_ret.
  - apply reads_bind; [apply Hf|]. intros y.
    apply reads_bind; [exact IH|]. intros ys. apply reads_ret.
Qed.

Lemma reads_options_or_nil (insp : Inspector) (D : Db) (ref_full id_col label_col : string) :
  reads_options (options_or_nil insp D ref_full id_col label_col).
Proof.
  intros w. unfold options_or_nil, catch, fetch_fk_options.
  destruct (table_c_get _ id_col); [|].
  - destruct (label_expr _ label_col) as [lbl|].
    + unfold bind, execute_query.
      destruct (db_query D (w_store w) _) as [e|rows]; simpl.
      * eexists _, [_]. split; [reflexivity|]. now repeat constructor.
      * eexists _, [_]. split; [reflexivity|]. now repeat constructor.
    + apply reads_ret.
  - apply reads_ret.
Qed.

Lemma reads_insert_column (insp : Inspector) (D : Db) (table : list Column)
    (fk_map : gmap string FkInfo) (c : ColMeta) :
  reads_options (insert_column insp D table fk_map c).
Proof.
  unfold insert_column.
  destruct (table_c_get table (cm_name c)) as [col|]; [|apply reads_ret].
  destruct (cm_is_pk c && cm_autoincrement c); [apply reads_ret|].
  destruct (is_nextval (cm_default c)); [apply reads_ret|].
  destruct (col_identity col); [apply reads_ret|].
  destruct (fk_map !! cm_name c) as [fk|]; [|apply reads_ret].
  apply reads_bind; [apply reads_options_or_nil|]. intros; apply reads_ret.
Qed.

Lemma reads_build_insert_columns (insp : Inspector) (D : Db) (fullname : string) :
  reads_options (build_insert_columns insp D fullname).
Proof.
  unfold build_insert_columns.
  apply reads_bind; [|intros; apply reads_ret].
  apply reads_mapM. intros c. apply reads_insert_column.
Qed.

Lemma options_query_not_guess (evs : list Event) (x : option string) :
  Forall (fun ev => is_options_query ev = true) evs -> EvGuess x ∉ evs.
Proof.
  intros F Hin. rewrite Forall_forall in F.
  specialize (F _ Hin). discriminate.
Qed.

Lemma options_query_not_insert (evs : list Event) (t : string * string)
    (values : gmap string PyVal) :
  Forall (fun ev => is_options_query ev = true) evs -> EvExecute (StInsert t values) ∉ evs.
Proof.
  intros F Hin. rewrite Forall_forall in F.
  specialize (F _ Hin). discriminate.
Qed.

(** ** C2: an override wins over the heuristics *)

Lemma override_nonempty (proc pname t : string) :
  override_for proc (Some pname) = Some t -> t <> "".
Proof.
  unfold override_for, PROCEDURE_PARAM_TABLE_OVERRIDES. simpl.
  destruct (decide (proc = "leader_transfer")) as [->|Hne].
  - rewrite lookup_singleton_eq. simpl.
    intros H. apply lookup_insert_Some in H as [[_ <-] | [_ H]]; [discriminate|].
    apply lookup_singleton_Some in H as [_ <-]. discriminate.
  - rewrite lookup_singleton_ne by congruence. discriminate.
Qed.

(** C2. For every (procedure, parameter) pair of the override table,
    resolution returns the table of the override and the world is as it
    was, so the naming heuristics were not invoked, whatever they would
    have answered on this catalogue; the enriched parameter, when it gets
    a reference, refers to the table of the override, and enrichment logs
    no call of the heuristics. *)
Theorem override_skips_heuristics (insp : Inspector) (D : Db) (proc pname t : string)
    (ty : option string) (w : World D) :
  override_for proc (Some pname) = Some t ->
  resolve_ref insp D proc (Some pname) w = (inr (Some t), w)
  /\ exists (e : EnrichedParam) (evs : list Event),
       enrich_param insp D proc {| p_name := Some pname; p_type := ty |} w
       = (inr e, {| w_store := w_store w; w_log := w_log w ++ evs |})
       /\ (forall x, EvGuess x ∉ evs)
       /\ (forall ri, ep_ref e = Some ri -> ri_ref_fullname ri = t).
Proof.
  intros Hov. pose proof (override_nonempty _ _ _ Hov) as Hne.
  assert (Hres : resolve_ref insp D proc (Some pname) w = (inr (Some t), w)).
  { unfold resolve_ref. rewrite Hov. simpl.
    now rewrite bool_decide_eq_false_2 by exact Hne. }
  split; [exact Hres|].
  unfold enrich_param, bind. simpl p_name. rewrite Hres.
  rewrite bool_decide_eq_false_2 by exact Hne.
  destruct (get_primary_key insp t) as [[|id_name pk]|].
  - exists {| ep_param := {| p_name := Some pname; p_type := ty |}; ep_ref := None |}, [].
    unfold ret. rewrite world_app_nil. split; [reflexivity|].
    split; [intros x Hx; inversion Hx | discriminate].
  - destruct (reads_options_or_nil insp D t id_name (pick_label_column insp t) w)
      as (opts & evs & E & F).
    rewrite E. eexists _, evs. split; [reflexivity|]. split.
    + intros x. now apply options_query_not_guess.
    + simpl. intros ri [= <-]. reflexivity.
  - exists {| ep_param := {| p_name := Some pname; p_type := ty |}; ep_ref := None |}, [].
    unfold ret. rewrite world_app_nil. split; [reflexivity|].
    split; [intros x Hx; inversion Hx | discriminate].
Qed.

Lemma override_skips_heuristics_witness :
  override_for "leader_transfer" (Some "new_leader_id") = Some "public.young_people"
  /\ guess_ref_table_for_param Sample.insp (Some "new_leader_id") = Some "public.leader"
  /\ (resolve_ref Sample.insp Sample.db "leader_transfer" (Some "new_leader_id") Sample.world0
      = (inr (Some "public.young_people"), Sample.world0)
      /\ exists (e : EnrichedParam) (evs : list Event),
           enrich_param Sample.insp Sample.db "leader_transfer"
             {| p_name := Some "new_leader_id"; p_type := Some "integer" |} Sample.world0
           = (inr e, {| w_store := w_store Sample.world0;
                        w_log := w_log Sample.world0 ++ evs |})
           /\ (forall x, EvGuess x ∉ evs)
           /\ (forall ri, ep_ref e = Some ri -> ri_ref_fullname ri = "public.young_people")).
Proof.
  split; [vm_compute; reflexivity|]. split; [vm_compute; reflexivity|].
  apply (override_skips_heuristics Sample.insp Sample.db "leader_transfer" "new_leader_id").
  vm_compute; reflexivity.
Defined.

(** ** TypeCoercer: what the loop leaves in [values] and [errors] *)

Lemma coerce_step_other (insp : Inspector) (L : Lib) (fullname : string) (form : Form)
    (acc : gmap string PyVal * gmap string string) (col : Column) (n : string) :
  col_name col <> n ->
  (coerce_step insp L fullname form acc col).1 !! n = acc.1 !! n
  /\ (coerce_step insp L fullname form acc col).2 !! n = acc.2 !! n.
Proof.
  intros Hne. destruct acc as [values errors]. unfold coerce_step.
  destruct (bool_decide _ && is_blank _); [done|].
  destruct (form_get (col_name col) form) as [raw|]; simpl.
  - destruct (bool_decide (raw = "")); simpl.
    + now rewrite lookup_insert_ne.
    + destruct (convert L (col_type col) raw); simpl; now rewrite lookup_insert_ne.
  - now rewrite lookup_insert_ne.
Qed.

Lemma coerce_fold_other (insp : Inspector) (L : Lib) (fullname : string) (form : Form)
    (cols : list Column) (acc : gmap string PyVal * gmap string string) (n : string) :
  n ∉ map col_name cols ->
  (fold_left (coerce_step insp L fullname form) cols acc).1 !! n = acc.1 !! n
  /\ (fold_left (coerce_step insp L fullname form) cols acc).2 !! n = acc.2 !! n.
Proof.
  revert acc. induction cols as [|c cols IH]; intros acc Hn; simpl; [done|].
  simpl in Hn. apply not_elem_of_cons in Hn as [Hc Hn].
  destruct (IH (coerce_step insp L fullname form acc c) Hn) as [-> ->].
  apply coerce_step_other. congruence.
Qed.

(** The entries of a column after the whole loop are those its own turn
    writes on empty dictionaries, when the column names are distinct. *)
Lemma coerce_form_at (insp : Inspector) (L : Lib) (fullname : string) (form : Form)
    (col : Column) :
  NoDup (map col_name (reflect_table insp fullname)) ->
  col ∈ reflect_table insp fullname ->
  exists acc : gmap string PyVal * gmap string string,
    acc.1 !! col_name col = None /\ acc.2 !! col_name col = None
    /\ (coerce_form insp L fullname form).1 !! col_name col
       = (coerce_step insp L fullname form acc col).1 !! col_name col
    /\ (coerce_form insp L fullname form).2 !! col_name col
       = (coerce_step insp L fullname form acc col).2 !! col_name col.
Proof.
  intros Hnd Hin. unfold coerce_form.
  apply list_elem_of_split in Hin as (l1 & l2 & Heq). rewrite Heq in *.
  rewrite map_app in Hnd. simpl in Hnd.
  apply NoDup_app in Hnd as (_ & Hdisj & Hnd2).
  apply NoDup_cons in Hnd2 as [Hn2 _].
  assert (Hn1 : col_name col ∉ map col_name l1).
  { intros Hin1. apply (Hdisj _ Hin1). left. }
  rewrite fold_left_app. simpl.
  exists (fold_left (coerce_step insp L fullname form) l1 (∅, ∅)).
  destruct (coerce_fold_other insp L fullname form l1 (∅, ∅) _ Hn1) as [E1 E2].
  split; [now rewrite E1|]. split; [now rewrite E2|].
  apply coerce_fold_other. exact Hn2.
Qed.

(** ** C4: blank and absent values *)

(** C4, as amended. For every column of the table whose raw value is blank
    or absent: a primary-key column, boolean or not, gets no key in the
    value set; any other column gets [False] when it is boolean and an
    explicit [None] otherwise; no error is recorded for it. *)
Theorem blank_field_coercion (insp : Inspector) (L : Lib) (fullname : string) (form : Form)
    (col : Column) :
  NoDup (map col_name (reflect_table insp fullname)) ->
  col ∈ reflect_table insp fullname ->
  is_blank (form_get (col_name col) form) = true ->
  (coerce_form insp L fullname form).2 !! col_name col = None
  /\ (if bool_decide (col_name col ∈ primary_key_or_nil insp fullname)
      then (coerce_form insp L fullname form).1 !! col_name col = None
      else if _is_bool_type (col_type col)
           then (coerce_form insp L fullname form).1 !! col_name col = Some (VBool false)
           else (coerce_form insp L fullname form).1 !! col_name col = Some VNone).
Proof.
  intros Hnd Hin Hblank.
  destruct (coerce_form_at insp L fullname form col Hnd Hin)
    as ([values errors] & Hv & He & -> & ->).
  simpl in Hv, He. unfold coerce_step. rewrite Hblank.
  destruct (bool_decide (col_name col ∈ primary_key_or_nil insp fullname)); simpl.
  - done.
  - destruct (form_get (col_name col) form) as [raw|]; simpl in *.
    + rewrite Hblank. simpl. rewrite lookup_insert_eq.
      split; [exact He|]. now destruct (_is_bool_type (col_type col)).
    + rewrite lookup_insert_eq.
      split; [exact He|]. now destruct (_is_bool_type (col_type col)).
Qed.

Lemma blank_field_coercion_witness :
  let col := {| col_name := "active"; col_type := TBoolean; col_identity := false |} in
  NoDup (map col_name (reflect_table Sample.insp "public.investors"))
  /\ col ∈ reflect_table Sample.insp "public.investors"
  /\ is_blank (form_get (col_name col) [("name", "Ada")]) = true
  /\ ((coerce_form Sample.insp Sample.lib "public.investors" [("name", "Ada")]).2
        !! col_name col = None
      /\ (if bool_decide (col_name col ∈ primary_key_or_nil Sample.insp "public.investors")
          then (coerce_form Sample.insp Sample.lib "public.investors" [("name", "Ada")]).1
                 !! col_name col = None
          else if _is_bool_type (col_type col)
               then (coerce_form Sample.insp Sample.lib "public.investors" [("name", "Ada")]).1
                      !! col_name col = Some (VBool false)
               else (coerce_form Sample.insp Sample.lib "public.investors" [("name", "Ada")]).1
                      !! col_name col = Some VNone)).
Proof.
  intros col.
  assert (Hnd : NoDup (map col_name (reflect_table Sample.insp "public.investors"))).
  { apply (bool_decide_unpack _). vm_compute. exact I. }
  assert (Hin : col ∈ reflect_table Sample.insp "public.investors").
  { vm_compute. do 2 right. left. }
  split; [exact Hnd|]. split; [exact Hin|]. split; [reflexivity|].
  apply (blank_field_coercion Sample.insp Sample.lib "public.investors" [("name", "Ada")] col
           Hnd Hin).
  reflexivity.
Defined.

(** C4, as stated, fails on a boolean primary-key column: the table
    [public.flags] has the boolean primary key [enabled], and a submission
    without it gives a value set with no key [enabled], not [False]. *)
Lemma blank_boolean_primary_key_is_omitted :
  ~ (forall (insp : Inspector) (L : Lib) (fullname : string) (form : Form) (col : Column),
       NoDup (map col_name (reflect_table insp fullname)) ->
       col ∈ reflect_table insp fullname ->
       is_blank (form_get (col_name col) form) = true ->
       _is_bool_type (col_type col) = true ->
       (coerce_form insp L fullname form).1 !! col_name col = Some (VBool false)).
Proof.
  intros H.
  specialize (H Sample.insp Sample.lib "public.flags" []
                {| col_name := "enabled"; col_type := TBoolean; col_identity := false |}).
  assert (Hnd : NoDup (map col_name (reflect_table Sample.insp "public.flags"))).
  { apply (bool_decide_unpack _). vm_compute. exact I. }
  specialize (H Hnd).
  assert (Hin : {| col_name := "enabled"; col_type := TBoolean; col_identity := false |}
                ∈ reflect_table Sample.insp "public.flags").
  { vm_compute. left. }
  specialize (H Hin eq_refl eq_refl).
  vm_compute in H. discriminate H.
Qed.

(** ** C5: every field is attempted, and a failure rejects the submission *)

(** C5. Whatever happened to the columns before it, a column with a
    non-blank raw value ends up in [errors], under its own name and with
    the text of its failure, when its conversion fails, and in [values]
    when it succeeds. When [errors] is not empty the handler renders the
    form again with these errors and the submitted form, the store is the
    one it started from, and no insert is among the statements it sent. *)
Theorem coercion_collects_then_rejects (insp : Inspector) (D : Db) (L : Lib)
    (table_name : string) (form : Form) (w : World D) :
  let fullname := qualify table_name in
  let values := (coerce_form insp L fullname form).1 in
  let errors := (coerce_form insp L fullname form).2 in
  NoDup (map col_name (reflect_table insp fullname)) ->
  (forall (col : Column) (raw : string),
     col ∈ reflect_table insp fullname ->
     form_get (col_name col) form = Some raw ->
     raw <> "" ->
     match convert L (col_type col) raw with
     | inl ex =>
         errors !! col_name col = Some ("Invalid value: " +:+ ex)
         /\ values !! col_name col = None
     | inr v =>
         values !! col_name col = Some v /\ errors !! col_name col = None
     end)
  /\ (errors <> ∅ ->
      exists (cols : list (ColMeta * option RefInfo)) (evs : list Event),
        insert_post insp D L table_name form w
        = (inr (RenderInsertForm cols errors form),
           {| w_store := w_store w; w_log := w_log w ++ evs |})
        /\ forall t v, EvExecute (StInsert t v) ∉ evs).
Proof.
  intros fullname values errors Hnd. split.
  - intros col raw Hin Hraw Hne. subst values errors.
    destruct (coerce_form_at insp L fullname form col Hnd Hin)
      as ([vs es] & Hv & He & -> & ->).
    simpl in Hv, He. unfold coerce_step. rewrite Hraw. simpl.
    rewrite (bool_decide_eq_false_2 (raw = "")) by exact Hne.
    rewrite andb_false_r.
    destruct (convert L (col_type col) raw) as [ex|v]; simpl;
      now rewrite lookup_insert_eq.
  - intros Herr. unfold insert_post, catch.
    fold fullname. destruct (coerce_form insp L fullname form) as [vs es] eqn:Hc.
    subst values errors. simpl in *.
    rewrite (bool_decide_eq_false_2 (es = ∅)) by exact Herr. simpl.
    destruct (reads_build_insert_columns insp D fullname w) as (cols & evs & E & F).
    unfold bind. rewrite E. exists cols, evs. split; [reflexivity|].
    intros t v. now apply options_query_not_insert.
Qed.

Lemma coercion_collects_then_rejects_witness :
  let form := [("name", "Ada"); ("shares", "1x"); ("badge", "zz"); ("sponsor_id", "7")] in
  let values := (coerce_form Sample.insp Sample.lib (qualify "investors") form).1 in
  let errors := (coerce_form Sample.insp Sample.lib (qualify "investors") form).2 in
  NoDup (map col_name (reflect_table Sample.insp (qualify "investors")))
  /\ errors <> ∅
  /\ ((forall (col : Column) (raw : string),
         col ∈ reflect_table Sample.insp (qualify "investors") ->
         form_get (col_name col) form = Some raw ->
         raw <> "" ->
         match convert Sample.lib (col_type col) raw with
         | inl ex =>
             errors !! col_name col = Some ("Invalid value: " +:+ ex)
             /\ values !! col_name col = None
         | inr v =>
             values !! col_name col = Some v /\ errors !! col_name col = None
         end)
      /\ (errors <> ∅ ->
          exists (cols : list (ColMeta * option RefInfo)) (evs : list Event),
            insert_post Sample.insp Sample.db Sample.lib "investors" form Sample.world0
            = (inr (RenderInsertForm cols errors form),
               {| w_store := w_store Sample.world0;
                  w_log := w_log Sample.world0 ++ evs |})
            /\ forall t v, EvExecute (StInsert t v) ∉ evs)).
Proof.
  intros form values errors.
  assert (Hnd : NoDup (map col_name (reflect_table Sample.insp (qualify "investors")))).
  { apply (bool_decide_unpack _). vm_compute. exact I. }
  split; [exact Hnd|]. split.
  - intros H. apply (f_equal (fun m => m !! "shares")) in H.
    vm_compute in H. discriminate H.
  - exact (coercion_collects_then_rejects Sample.insp Sample.db Sample.lib
             "investors" form Sample.world0 Hnd).
Defined.

(** ** C6: a unique violation is reported globally *)

Lemma error_map_unique (e : DbError) :
  error_sqlstate e = Some "23505" ->
  constraint_error_map e
  = {[ "_global" :=
         "Unique constraint violated"
           +:+ constraint_suffix (error_diag e ≫= constraint_name)
           +:+ ". " +:+ error_message e ]}.
Proof.
  intros Hs. unfold constraint_error_map. rewrite Hs. simpl.
  rewrite orb_true_r. reflexivity.
Qed.

(** C6. A failure whose code is the unique-violation code 23505 maps to
    one entry, under the global key, whose message names the constraint
    when the diagnostic gives one; no column gets an entry, whatever column
    the diagnostic names; and this is the error map of the form the insert
    handler renders when the store answers an insert with such a failure. *)
Theorem unique_violation_is_global (e : DbError) :
  error_sqlstate e = Some "23505" ->
  constraint_error_map e
  = {[ "_global" :=
         "Unique constraint violated"
           +:+ constraint_suffix (error_diag e ≫= constraint_name)
           +:+ ". " +:+ error_message e ]}
  /\ (forall field : string, field <> "_global" -> constraint_error_map e !! field = None)
  /\ (forall cons : string,
        error_diag e ≫= constraint_name = Some cons -> cons <> "" ->
        constraint_suffix (error_diag e ≫= constraint_name) = " (" +:+ cons +:+ ")")
  /\ (forall (insp : Inspector) (D : Db) (L : Lib) (table_name : string) (form : Form)
             (w : World D),
        (coerce_form insp L (qualify table_name) form).2 = ∅ ->
        db_exec D (w_store w)
          (StInsert (parse_table (qualify table_name))
             (coerce_form insp L (qualify table_name) form).1) = inl e ->
        exists (cols : list (ColMeta * option RefInfo)) (evs : list Event),
          insert_post insp D L table_name form w
          = (inr (RenderInsertForm cols (constraint_error_map e) form),
             {| w_store := w_store w; w_log := w_log w ++ evs |})).
Proof.
  intros Hs. pose proof (error_map_unique e Hs) as Hmap.
  split; [exact Hmap|]. split; [|split].
  - intros field Hne. rewrite Hmap. now apply lookup_singleton_ne.
  - intros cons -> Hne. unfold constraint_suffix. simpl.
    now rewrite bool_decide_eq_false_2 by exact Hne.
  - intros insp D L table_name form w Herr Hexec.
    unfold insert_post, catch.
    destruct (coerce_form insp L (qualify table_name) form) as [vs es] eqn:Hc.
    simpl in Herr, Hexec. subst es.
    rewrite bool_decide_eq_true_2 by reflexivity. simpl.
    unfold bind at 1. unfold execute_commit. rewrite Hexec.
    destruct (reads_build_insert_columns insp D (qualify table_name)
                {| w_store := w_store w;
                   w_log := w_log w
                            ++ [EvExecute (StInsert (parse_table (qualify table_name)) vs)] |})
      as (cols & evs & E & F).
    unfold bind. rewrite E. simpl.
    exists cols, ([EvExecute (StInsert (parse_table (qualify table_name)) vs)] ++ evs).
    now rewrite app_assoc.
Qed.

Lemma unique_violation_is_global_witness :
  error_sqlstate Sample.unique_violation = Some "23505"
  /\ (error_diag Sample.unique_violation ≫= column_name) = Some "name"
  /\ constraint_error_map Sample.unique_violation
     = {[ "_global" :=
            "Unique constraint violated"
              +:+ constraint_suffix (error_diag Sample.unique_violation ≫= constraint_name)
              +:+ ". " +:+ error_message Sample.unique_violation ]}
  /\ constraint_error_map Sample.unique_violation !! "name" = None.
Proof.
  split; [reflexivity|]. split; [reflexivity|].
  destruct (unique_violation_is_global Sample.unique_violation eq_refl) as (Hmap & Hfield & _).
  split; [exact Hmap|]. apply Hfield. discriminate.
Defined.

(** ** C7: no cursor without a single-column primary key *)

(** C7. For a table whose primary key is not exactly one column, the
    polling handler answers with no rows and the message that a
    single-column primary key is required, and the row fetch below it
    answers with no rows; both leave the world as it was: no statement was
    sent and no error raised. *)
Theorem polling_needs_single_column_key (insp : Inspector) (D : Db) (table_name : string)
    (after_pk : option Z) (last_pk max_rows : Z) (w : World D) :
  length (primary_key_or_nil insp (qualify table_name)) <> 1%nat ->
  api_new_rows insp D table_name after_pk max_rows w
  = (inr (NewRowsMessage [] "Watching requires a single-column primary key."), w)
  /\ select_new_rows_after_pk insp D (qualify table_name) last_pk max_rows w = (inr [], w).
Proof.
  intros Hlen. unfold api_new_rows, select_new_rows_after_pk.
  destruct (primary_key_or_nil insp (qualify table_name)) as [|pk0 [|pk1 pks]];
    simpl in Hlen; try done.
Qed.

Lemma polling_needs_single_column_key_witness :
  primary_key_or_nil Sample.insp (qualify "memberships") = ["person_id"; "project_id"]
  /\ length (primary_key_or_nil Sample.insp (qualify "memberships")) <> 1%nat
  /\ (api_new_rows Sample.insp Sample.db "memberships" (Some 3%Z) 50%Z Sample.world0
      = (inr (NewRowsMessage [] "Watching requires a single-column primary key."),
         Sample.world0)
      /\ select_new_rows_after_pk Sample.insp Sample.db (qualify "memberships") 3%Z 50%Z
           Sample.world0
         = (inr [], Sample.world0)).
Proof.
  split; [reflexivity|].
  assert (H : length (primary_key_or_nil Sample.insp (qualify "memberships")) <> 1%nat).
  { vm_compute. discriminate. }
  split; [exact H|].
  exact (polling_needs_single_column_key Sample.insp Sample.db "memberships"
           (Some 3%Z) 3%Z 50%Z Sample.world0 H).
Defined.

(** ** C8: the composite label *)

Lemma has_name_intro (name : string) (cols : list ColMeta) (c : ColMeta) :
  c ∈ cols -> Py.lower (cm_name c) = name -> has_name name cols = true.
Proof.
  intros Hin Hname. unfold has_name. apply bool_decide_eq_true_2.
  apply Exists_exists. exists c. split; [exact Hin | exact Hname].
Qed.

(** C8, as amended. For every table that has a text-typed column named
    [first_name] and a text-typed column named [last_name] (names compared
    without case), the label picker returns the composite marker, whatever
    other columns the table has, a column named [name] included. *)
Theorem pick_label_composite (insp : Inspector) (fullname : string) (c1 c2 : ColMeta) :
  c1 ∈ get_columns insp fullname ->
  c2 ∈ get_columns insp fullname ->
  Py.lower (cm_name c1) = "first_name" -> _is_text_type (cm_type c1) = true ->
  Py.lower (cm_name c2) = "last_name" -> _is_text_type (cm_type c2) = true ->
  pick_label_column insp fullname = "first_name last_name".
Proof.
  intros H1 H2 N1 T1 N2 T2. unfold pick_label_column.
  rewrite (has_name_intro "first_name" _ c1); [|apply list_elem_of_filter; done | exact N1].
  rewrite (has_name_intro "last_name" _ c2); [|apply list_elem_of_filter; done | exact N2].
  reflexivity.
Qed.

Lemma pick_label_composite_witness :
  let c1 := {| cm_name := "first_name"; cm_type := TString; cm_nullable := true;
               cm_default := None; cm_autoincrement := false; cm_is_pk := false |} in
  let c2 := {| cm_name := "last_name"; cm_type := TString; cm_nullable := true;
               cm_default := None; cm_autoincrement := false; cm_is_pk := false |} in
  c1 ∈ get_columns Sample.insp "public.young_people"
  /\ c2 ∈ get_columns Sample.insp "public.young_people"
  /\ (exists c, c ∈ get_columns Sample.insp "public.young_people"
                /\ cm_name c = "name" /\ _is_text_type (cm_type c) = true)
  /\ pick_label_column Sample.insp "public.young_people" = "first_name last_name".
Proof.
  intros c1 c2.
  assert (H1 : c1 ∈ get_columns Sample.insp "public.young_people").
  { vm_compute. do 2 right. left. }
  assert (H2 : c2 ∈ get_columns Sample.insp "public.young_people").
  { vm_compute. do 3 right. left. }
  split; [exact H1|]. split; [exact H2|]. split.
  - eexists. split; [vm_compute; right; left|]. split; reflexivity.
  - exact (pick_label_composite Sample.insp "public.young_people" c1 c2 H1 H2
             eq_refl eq_refl eq_refl eq_refl).
Defined.

(** C8, as stated, fails when the two columns are not text-typed: in
    [public.staff] the columns [first_name] and [last_name] have a type
    outside the text classes, and the picker returns [name]. *)
Lemma pick_label_non_text_names :
  ~ (forall (insp : Inspector) (fullname : string),
       (exists c, c ∈ get_columns insp fullname /\ cm_name c = "first_name") ->
       (exists c, c ∈ get_columns insp fullname /\ cm_name c = "last_name") ->
       pick_label_column insp fullname = "first_name last_name").
Proof.
  intros H. specialize (H Sample.insp "public.staff").
  assert (pick_label_column Sample.insp "public.staff" = "name") as Hname
    by (vm_compute; reflexivity).
  rewrite Hname in H. discriminate H.
  - eexists. split; [vm_compute; right; left|]. reflexivity.
  - eexists. split; [vm_compute; do 2 right; left|]. reflexivity.
Qed.

(** ** C9: an empty export is empty *)

(** C9. When the filtered select of an export returns no row, the body of
    the response has no chunk, so no byte and no header line; and on a
    result that has a first row the first chunk is the header line made
    of the keys of that row, followed by the line of the row. *)
Theorem export_of_empty_result_is_empty (insp : Inspector) (D : Db) (L : Lib)
    (table_name : string) (q date_from date_to date_col : option string)
    (limit : option Z) (w : World D) :
  db_query D (w_store w) (export_stmt insp table_name q date_from date_to date_col limit)
  = inr [] ->
  (exists (r : ExportResponse) (w' : World D),
     export_csv insp D L table_name q date_from date_to date_col limit w = (inr r, w')
     /\ body r = []
     /\ String.length (String.concat "" (body r)) = 0%nat)
  /\ (forall (row : Row) (rest : list Row),
        row_iter_loop L (row :: rest) "" None
        = csv_line L (map VStr (map fst row))
            :: csv_line L (map (fun k => row_get k row) (map fst row))
            :: row_iter_loop L rest "" (Some (map fst row))).
Proof.
  intros Hq. split.
  - unfold export_csv, row_iter, bind, execute_query. rewrite Hq. simpl.
    eexists _, _. split; [reflexivity|]. split; reflexivity.
  - intros row rest. reflexivity.
Qed.

Lemma export_of_empty_result_is_empty_witness :
  db_query Sample.db (w_store Sample.world0)
    (export_stmt Sample.insp "public.investors" (Some "zz") None None None None)
  = inr []
  /\ ((exists (r : ExportResponse) (w' : World Sample.db),
         export_csv Sample.insp Sample.db Sample.lib "public.investors" (Some "zz") None None
           None None Sample.world0 = (inr r, w')
         /\ body r = []
         /\ String.length (String.concat "" (body r)) = 0%nat)
      /\ (forall (row : Row) (rest : list Row),
            row_iter_loop Sample.lib (row :: rest) "" None
            = csv_line Sample.lib (map VStr (map fst row))
                :: csv_line Sample.lib (map (fun k => row_get k row) (map fst row))
                :: row_iter_loop Sample.lib rest "" (Some (map fst row)))).
Proof.
  assert (H : db_query Sample.db (w_store Sample.world0)
                (export_stmt Sample.insp "public.investors" (Some "zz") None None None None)
              = inr []) by reflexivity.
  split; [exact H|].
  exact (export_of_empty_result_is_empty Sample.insp Sample.db Sample.lib
           "public.investors" (Some "zz") None None None None Sample.world0 H).
Defined.

(** ** C10: generated columns are not insertable *)

Lemma mapM_concat_elem {D A B} (f : A -> M D (list B)) (l : list A) (w w' : World D)
    (ys : list (list B)) (y : B) :
  mapM f l w = (inr ys, w') ->
  y ∈ concat ys ->
  exists (x : A) (w1 w2 : World D) (r : list B),
    x ∈ l /\ f x w1 = (inr r, w2) /\ y ∈ r.
Proof.
  revert w ys. induction l as [|x l IH]; intros w ys; simpl.
  - unfold ret. intros [= <- <-]. simpl. intros Hy. inversion Hy.
  - unfold bind at 1. destruct (f x w) as [[e|r] w1] eqn:Ef; [discriminate|].
    unfold bind at 1. destruct (mapM f l w1) as [[e|rs] w2] eqn:Em; [discriminate|].
    unfold ret. intros [= <- <-]. simpl. intros Hy.
    apply elem_of_app in Hy as [Hy|Hy].
    + exists x, w, w1, r. split; [left|]. split; [exact Ef | exact Hy].
    + destruct (IH w1 rs Em Hy) as (x' & wa & wb & r' & Hin & Ef' & Hy').
      exists x', wa, wb, r'. split; [now right|]. split; [exact Ef' | exact Hy'].
Qed.

Lemma insert_column_elem (insp : Inspector) (D : Db) (table : list Column)
    (fk_map : gmap string FkInfo) (c c' : ColMeta) (ri : option RefInfo)
    (w w' : World D) (r : list (ColMeta * option RefInfo)) :
  insert_column insp D table fk_map c w = (inr r, w') ->
  (c', ri) ∈ r ->
  c' = c
  /\ is_nextval (cm_default c) = false
  /\ exists col, table_c_get table (cm_name c) = Some col /\ col_identity col = false.
Proof.
  unfold insert_column.
  destruct (table_c_get table (cm_name c)) as [col|];
    [|unfold ret; intros [= <- <-] Hin; inversion Hin].
  destruct (cm_is_pk c && cm_autoincrement c);
    [unfold ret; intros [= <- <-] Hin; inversion Hin|].
  destruct (is_nextval (cm_default c));
    [unfold ret; intros [= <- <-] Hin; inversion Hin|].
  destruct (col_identity col) eqn:Hid;
    [unfold ret; intros [= <- <-] Hin; inversion Hin|].
  assert (Hdone : forall x : option RefInfo,
             (c', ri) ∈ [(c, x)] ->
             c' = c /\ false = false
             /\ exists col0, Some col = Some col0 /\ col_identity col0 = false).
  { intros x Hin. apply list_elem_of_singleton in Hin as [= -> _].
    split; [reflexivity|]. split; [reflexivity|]. now exists col. }
  destruct (fk_map !! cm_name c) as [fk|].
  - unfold bind. destruct (options_or_nil _ _ _ _ _ w) as [[e|opts] w1]; [discriminate|].
    unfold ret. intros [= <- <-]. apply Hdone.
  - unfold ret. intros [= <- <-]. apply Hdone.
Qed.

(** C10. Building the insertable columns always returns, and a column of
    the table whose server default begins with ["nextval("] (without
    case) or whose reflected column carries an identity marker is not
    among them, whether it is a primary key or not: the test on
    primary-key and autoincrement is another, separate exclusion. *)
Theorem generated_columns_not_insertable (insp : Inspector) (D : Db) (fullname : string)
    (w : World D) :
  exists (cols : list (ColMeta * option RefInfo)) (w' : World D),
    build_insert_columns insp D fullname w = (inr cols, w')
    /\ forall c : ColMeta,
         c ∈ get_columns insp fullname ->
         (is_nextval (cm_default c) = true
          \/ exists col, table_c_get (reflect_table insp fullname) (cm_name c) = Some col
                         /\ col_identity col = true) ->
         forall ri, (c, ri) ∉ cols.
Proof.
  destruct (reads_build_insert_columns insp D fullname w) as (cols & evs & E & _).
  exists cols, {| w_store := w_store w; w_log := w_log w ++ evs |}.
  split; [exact E|].
  intros c Hc Hgen ri Hin.
  unfold build_insert_columns, bind in E.
  destruct (mapM _ (get_columns insp fullname) w) as [[e|visible] w1] eqn:Em;
    [discriminate|].
  unfold ret in E. injection E as <- _.
  destruct (mapM_concat_elem _ _ _ _ _ _ Em Hin) as (x & wa & wb & r & _ & Ef & Hr).
  destruct (insert_column_elem _ _ _ _ _ _ _ _ _ _ Ef Hr) as (-> & Hnv & col & Hcol & Hid).
  destruct Hgen as [Hgen | (col' & Hcol' & Hid')].
  - congruence.
  - rewrite Hcol in Hcol'. injection Hcol' as <-. congruence.
Qed.

Lemma generated_columns_not_insertable_witness :
  let ticket := {| cm_name := "ticket"; cm_type := TInteger; cm_nullable := false;
                   cm_default := Some "NEXTVAL('ticket_seq'::regclass)";
                   cm_autoincrement := false; cm_is_pk := false |} in
  ticket ∈ get_columns Sample.insp "public.investors"
  /\ is_nextval (cm_default ticket) = true
  /\ exists (cols : list (ColMeta * option RefInfo)) (w' : World Sample.db),
       build_insert_columns Sample.insp Sample.db "public.investors" Sample.world0
       = (inr cols, w')
       /\ forall ri, (ticket, ri) ∉ cols.
Proof.
  intros ticket.
  assert (Hin : ticket ∈ get_columns Sample.insp "public.investors").
  { vm_compute. do 5 right. left. }
  split; [exact Hin|]. split; [reflexivity|].
  destruct (generated_columns_not_insertable Sample.insp Sample.db "public.investors"
              Sample.world0) as (cols & w' & E & H).
  exists cols, w'. split; [exact E|].
  apply (H ticket Hin). left. reflexivity.
Defined.

(** ** C1: the CALL statement *)

(** C1, as amended. For every procedure name and form the call handler
    tests the name against nothing: it sends one statement, whose text is
    [CALL], the name as it came, and one placeholder per key of the form;
    the text does not depend on the values of the form, which are passed
    as the bound parameters only. *)
Theorem call_interpolates_name_binds_values (D : Db) (proc_name : string) (form : Form)
    (w : World D) :
  w_log (call_procedure D proc_name form w).2
  = w_log w
      ++ [EvExecute
            (StText ("CALL " +:+ proc_name +:+ "("
                       +:+ Py.join ", " (map (fun p => ":" +:+ p.1) form) +:+ ")")
                    form)]
  /\ forall form' : Form,
       map fst form' = map fst form -> call_sql proc_name form' = call_sql proc_name form.
Proof.
  split.
  - unfold call_procedure, catch, bind, execute_commit, call_sql.
    destruct (db_exec D (w_store w) _); reflexivity.
  - intros form' Hkeys. unfold call_sql. do 3 f_equal.
    rewrite <- (map_map fst (fun k => ":" +:+ k) form').
    rewrite <- (map_map fst (fun k => ":" +:+ k) form).
    now rewrite Hkeys.
Qed.

(** C1, as stated, fails: the catalogue of the sample store knows the one
    procedure [leader_transfer], and a call under another name still sends
    a CALL statement with that name in its text. *)
Lemma call_of_unlisted_name_is_sent :
  ~ (forall (D : Db) (proc_name : string) (form : Form) (w w1 : World D)
            (procedures : list (string * list Param)),
       get_procedures_with_params D w = (inr procedures, w1) ->
       proc_name ∉ map fst procedures ->
       w_log (call_procedure D proc_name form w).2 = w_log w).
Proof.
  intros H.
  specialize (H Sample.db "drop_all(); DROP TABLE investors; --" [("a", "1")]
                Sample.world0 _ _ eq_refl).
  assert (Hnot : "drop_all(); DROP TABLE investors; --"
                 ∉ map fst [("leader_transfer",
                             [{| p_name := Some "new_leader_id"; p_type := Some "integer" |};
                              {| p_name := Some "target_id"; p_type := Some "integer" |}])]).
  { simpl. intros Hin. apply list_elem_of_singleton in Hin. discriminate Hin. }
  specialize (H Hnot). vm_compute in H. discriminate H.
Qed.

(** * Further properties of the program *)

(** ** Table names *)

Lemma append_cons (a : ascii) (s t : string) : String a s +:+ t = String a (s +:+ t).
Proof. reflexivity. Qed.

Lemma split_once_Some (c : ascii) (s h t : string) :
  Py.split_once c s = Some (h, t) ->
  s = h +:+ String c t /\ Py.contains_char c h = false.
Proof.
  revert h. induction s as [|a s IH]; intros h; simpl; [discriminate|].
  destruct (ascii_dec a c) as [->|Hne].
  - intros [= <- <-]. split; reflexivity.
  - destruct (Py.split_once c s) as [[h' t']|]; [|discriminate].
    intros [= <- <-]. destruct (IH h' eq_refl) as [-> Hc].
    split; [now rewrite append_cons|].
    simpl. destruct (ascii_dec a c); [contradiction | exact Hc].
Qed.

Lemma split_once_None (c : ascii) (s : string) :
  Py.split_once c s = None <-> Py.contains_char c s = false.
Proof.
  induction s as [|a s IH]; simpl; [tauto|].
  destruct (ascii_dec a c); [split; discriminate|].
  destruct (Py.split_once c s) as [[h t]|].
  - split; [discriminate|]. intros H. apply IH in H. discriminate H.
  - split; [intros _; now apply IH | reflexivity].
Qed.

(** X1. A qualified name is split at its first dot, and the two parts put
    together with a dot give the name back; a name without a dot is a
    table of the schema [public]. The name a route handler makes of its
    path parameter always splits, and for a parameter without a dot it
    splits into [public] and the parameter. *)
Theorem parse_table_roundtrip (fullname table_name : string) :
  (if Py.contains_char "." fullname
   then (parse_table fullname).1 +:+ "." +:+ (parse_table fullname).2 = fullname
        /\ Py.contains_char "." (parse_table fullname).1 = false
   else parse_table fullname = ("public", fullname))
  /\ (parse_table (qualify table_name)).1 +:+ "." +:+ (parse_table (qualify table_name)).2
     = qualify table_name
  /\ (Py.contains_char "." table_name = false ->
      parse_table (qualify table_name) = ("public", table_name)).
Proof.
  assert (Hsplit : forall f, Py.contains_char "." f = true ->
            (parse_table f).1 +:+ "." +:+ (parse_table f).2 = f
            /\ Py.contains_char "." (parse_table f).1 = false).
  { intros f Hc. unfold parse_table.
    destruct (Py.split_once "." f) as [[h t]|] eqn:E.
    - apply split_once_Some in E as [-> Hh]. split; [reflexivity | exact Hh].
    - apply split_once_None in E. congruence. }
  assert (Hplain : forall f, Py.contains_char "." f = false ->
            parse_table f = ("public", f)).
  { intros f Hc. unfold parse_table. apply split_once_None in Hc. now rewrite Hc. }
  split; [|split].
  - destruct (Py.contains_char "." fullname) eqn:Hc; [now apply Hsplit | now apply Hplain].
  - unfold qualify. destruct (Py.contains_char "." table_name) eqn:Hc.
    + now apply Hsplit.
    + now apply Hsplit.
  - intros Hc. unfold qualify. rewrite Hc. unfold parse_table.
    change (Py.split_once "." ("public." +:+ table_name)) with (Some ("public", table_name)).
    reflexivity.
Qed.

Lemma elem_of_sorted (x : string) (l : list string) : x ∈ Py.sorted l <-> x ∈ l.
Proof. unfold Py.sorted. now rewrite merge_sort_Permutation. Qed.

(** The qualified names of the tables of the schemas that are not system
    schemas, before the fall-back and the sorting. *)
Lemma user_tables_elem (insp : Inspector) (full : string) :
  In full
    (flat_map (fun schema =>
                 if is_system_schema schema then []
                 else map (fun t => schema +:+ "." +:+ t) (insp_table_names insp schema))
              (insp_schema_names insp))
  <-> exists schema t,
        full = schema +:+ "." +:+ t /\ In schema (insp_schema_names insp)
        /\ is_system_schema schema = false /\ In t (insp_table_names insp schema).
Proof.
  rewrite in_flat_map. split.
  - intros (schema & Hs & Hin). destruct (is_system_schema schema) eqn:Hsys; [destruct Hin|].
    apply in_map_iff in Hin as (t & <- & Ht). now exists schema, t.
  - intros (schema & t & -> & Hs & Hsys & Ht). exists schema. split; [exact Hs|].
    rewrite Hsys. apply in_map_iff. now exists t.
Qed.

(** X2. The table list is sorted; each of its names is [schema.table] for
    a table the inspector reports in a schema that is not a system schema;
    and every table of such a schema is in the list. *)
Theorem get_tables_sorted_user_tables (insp : Inspector) :
  Sorted String.le (get_tables insp)
  /\ (forall full : string,
        full ∈ get_tables insp ->
        exists schema t,
          full = schema +:+ "." +:+ t /\ is_system_schema schema = false
          /\ t ∈ insp_table_names insp schema)
  /\ (forall schema t : string,
        schema ∈ insp_schema_names insp -> is_system_schema schema = false ->
        t ∈ insp_table_names insp schema ->
        schema +:+ "." +:+ t ∈ get_tables insp).
Proof.
  split; [apply Sorted_merge_sort; apply _|]. split.
  - intros full Hin. unfold get_tables in Hin.
    apply (proj1 (elem_of_sorted _ _)) in Hin.
    destruct (flat_map _ (insp_schema_names insp)) as [|x l] eqn:E.
    + apply list_elem_of_In, in_map_iff in Hin as (t & <- & Ht).
      exists "public", t. split; [reflexivity|]. split; [reflexivity|].
      now apply list_elem_of_In.
    + rewrite <- E in Hin. apply list_elem_of_In, user_tables_elem in Hin
        as (schema & t & -> & _ & Hsys & Ht).
      exists schema, t. split; [reflexivity|]. split; [exact Hsys|].
      now apply list_elem_of_In.
  - intros schema t Hs Hsys Ht. unfold get_tables. apply elem_of_sorted.
    assert (Hin : In (schema +:+ "." +:+ t)
              (flat_map (fun schema =>
                 if is_system_schema schema then []
                 else map (fun t => schema +:+ "." +:+ t) (insp_table_names insp schema))
                 (insp_schema_names insp))).
    { apply user_tables_elem. exists schema, t.
      split; [reflexivity|]. split; [now apply list_elem_of_In|].
      split; [exact Hsys | now apply list_elem_of_In]. }
    destruct (flat_map _ (insp_schema_names insp)) as [|x l]; [destruct Hin|].
    now apply list_elem_of_In.
Qed.

(** ** The candidate map and the guess *)

Lemma fold_left_inv {A B} (P : B -> Prop) (f : B -> A -> B) (l : list A) (b : B) :
  P b -> (forall b x, x ∈ l -> P b -> P (f b x)) -> P (fold_left f l b).
Proof.
  revert b. induction l as [|x l IH]; intros b Hb Hstep; simpl; [exact Hb|].
  apply IH.
  - apply Hstep; [left | exact Hb].
  - intros b' y Hy. apply Hstep. now right.
Qed.

Lemma candidate_step_lookup (m : gmap string string) (full k v : string) :
  candidate_step m full !! k = Some v ->
  m !! k = Some v \/ (v = full /\ is_variant_of k full).
Proof.
  unfold candidate_step, is_variant_of. simpl.
  set (base := Py.lower (parse_table full).2).
  destruct (Py.endswith base "ies").
  - intros H. apply lookup_insert_Some in H as [[<- <-]|[_ H]]; [right; tauto|].
    apply lookup_insert_Some in H as [[<- <-]|[_ H]]; [right; tauto | now left].
  - destruct (Py.endswith base "s" && negb (Py.endswith base "ss")).
    + intros H. apply lookup_insert_Some in H as [[<- <-]|[_ H]]; [right; tauto|].
      apply lookup_insert_Some in H as [[<- <-]|[_ H]]; [right; tauto | now left].
    + intros H. apply lookup_insert_Some in H as [[<- <-]|[_ H]]; [right; tauto|].
      apply lookup_insert_Some in H as [[<- <-]|[_ H]]; [right; tauto|].
      apply lookup_insert_Some in H as [[<- <-]|[_ H]]; [right; tauto | now left].
Qed.

Lemma candidate_step_keeps (m : gmap string string) (full k : string) :
  is_Some (m !! k) -> is_Some (candidate_step m full !! k).
Proof.
  intros H. unfold candidate_step. simpl.
  repeat match goal with
         | |- context [if ?b then _ else _] => destruct b
         end;
    repeat (apply lookup_insert_is_Some'; right); exact H.
Qed.

Lemma candidate_step_base (m : gmap string string) (full : string) :
  is_Some (candidate_step m full !! Py.lower (parse_table full).2).
Proof.
  unfold candidate_step. simpl.
  repeat match goal with
         | |- context [if ?b then _ else _] => destruct b
         end;
    repeat first [ rewrite lookup_insert_eq; by eauto
                 | apply lookup_insert_is_Some'; right ].
Qed.

Lemma candidates_lookup (insp : Inspector) (k v : string) :
  _all_table_name_candidates insp !! k = Some v ->
  v ∈ get_tables insp /\ is_variant_of k v.
Proof.
  unfold _all_table_name_candidates.
  apply (fold_left_inv
           (fun m => m !! k = Some v -> v ∈ get_tables insp /\ is_variant_of k v)).
  - rewrite lookup_empty. discriminate.
  - intros m full Hin IH H.
    apply candidate_step_lookup in H as [H|[-> Hv]]; [now apply IH | now split].
Qed.

(** X3. Every entry of the candidate map leads to a table of the table
    list, under the lowercased name of that table or one of its singular
    and plural variants; and the lowercased name of every table of the
    list is a key of the map. *)
Theorem candidates_are_tables (insp : Inspector) :
  (forall k v : string,
     _all_table_name_candidates insp !! k = Some v ->
     v ∈ get_tables insp
     /\ let base := Py.lower (parse_table v).2 in
        k = base \/ k = Py.drop_last 3 base +:+ "y" \/ k = Py.drop_last 1 base
        \/ k = base +:+ "s" \/ k = base +:+ "es")
  /\ (forall full : string,
        full ∈ get_tables insp ->
        is_Some (_all_table_name_candidates insp !! Py.lower (parse_table full).2)).
Proof.
  split.
  - intros k v H. now apply candidates_lookup.
  - intros full Hin. unfold _all_table_name_candidates.
    apply list_elem_of_split in Hin as (l1 & l2 & ->).
    rewrite fold_left_app. simpl.
    apply (fold_left_inv (fun m => is_Some (m !! Py.lower (parse_table full).2))).
    + apply candidate_step_base.
    + intros m x _. apply candidate_step_keeps.
Qed.

Lemma find_by_pk_elem (insp : Inspector) (base_key t : string) :
  find_by_pk insp base_key = Some t ->
  t ∈ get_tables insp
  /\ exists pk0, primary_key_or_nil insp t = [pk0] /\ Py.lower pk0 = base_key +:+ "_id".
Proof.
  unfold find_by_pk. intros H. apply find_some in H as [Hin Hpk].
  split; [now apply list_elem_of_In|].
  destruct (primary_key_or_nil insp t) as [|pk0 [|pk1 pks]]; try discriminate.
  exists pk0. split; [reflexivity|]. now apply bool_decide_eq_true_1 in Hpk.
Qed.

Lemma truthy_Some (o : option string) : Py.truthy o = true -> exists s, o = Some s /\ s <> "".
Proof.
  destruct o as [s|]; simpl; [|discriminate].
  intros H. exists s. split; [reflexivity|].
  apply negb_true_iff, bool_decide_eq_false_1 in H. exact H.
Qed.

Lemma resolve_base_elem (insp : Inspector) (base t : string) :
  resolve_base insp base = Some t -> t ∈ get_tables insp.
Proof.
  unfold resolve_base.
  destruct (_all_table_name_candidates insp !! base) as [full|] eqn:E1.
  { intros [= <-]. now apply candidates_lookup in E1 as [H _]. }
  destruct (if Py.contains_char "_" base
            then _all_table_name_candidates insp !! Py.last_token "_" base
            else None) as [full|] eqn:E2.
  { intros [= <-]. destruct (Py.contains_char "_" base); [|discriminate].
    now apply candidates_lookup in E2 as [H _]. }
  destruct (Py.truthy (find_by_pk insp base)) eqn:T1.
  { intros H. now apply find_by_pk_elem in H as [H _]. }
  destruct (Py.truthy (if Py.contains_char "_" base
                       then find_by_pk insp (Py.last_token "_" base) else None)) eqn:T2.
  { destruct (Py.contains_char "_" base); [|discriminate].
    intros H. now apply find_by_pk_elem in H as [H _]. }
  discriminate.
Qed.

Lemma guess_returns_listed_table_aux (insp : Inspector) (param_name : option string)
    (t : string) :
  guess_ref_table_for_param insp param_name = Some t -> t ∈ get_tables insp.
Proof.
  unfold guess_ref_table_for_param.
  destruct param_name as [pn|]; [|discriminate].
  destruct (bool_decide (pn = "")); [discriminate|].
  destruct (Py.endswith (Py.lower pn) "_id"); [|discriminate].
  apply resolve_base_elem.
Qed.

(** X4. The guess never invents a table: when it answers, the answer is a
    name of the table list, and the parameter name is not empty and ends,
    without case, in ["_id"]. *)
Theorem guess_returns_listed_table (insp : Inspector) (param_name : option string)
    (t : string) :
  guess_ref_table_for_param insp param_name = Some t ->
  t ∈ get_tables insp
  /\ exists pn, param_name = Some pn /\ pn <> ""
                /\ Py.endswith (Py.lower pn) "_id" = true.
Proof.
  unfold guess_ref_table_for_param.
  destruct param_name as [pn|]; [|discriminate].
  destruct (bool_decide (pn = "")) eqn:Hpn; [discriminate|].
  destruct (Py.endswith (Py.lower pn) "_id") eqn:Hid; [|discriminate].
  intros H. split; [now apply resolve_base_elem in H|].
  exists pn. split; [reflexivity|]. split; [|exact Hid].
  now apply bool_decide_eq_false_1 in Hpn.
Qed.

Lemma guess_returns_listed_table_witness :
  guess_ref_table_for_param Sample.insp (Some "old_Investor_ID") = Some "public.investors"
  /\ ("public.investors" ∈ get_tables Sample.insp
      /\ exists pn, Some "old_Investor_ID" = Some pn /\ pn <> ""
                    /\ Py.endswith (Py.lower pn) "_id" = true).
Proof.
  assert (H : guess_ref_table_for_param Sample.insp (Some "old_Investor_ID")
              = Some "public.investors") by (vm_compute; reflexivity).
  split; [exact H|].
  exact (guess_returns_listed_table Sample.insp (Some "old_Investor_ID") "public.investors" H).
Defined.

(** ** Foreign keys *)

(** X5. Every entry of the foreign-key map comes from a constraint of the
    table that names a referred table: its key is a constrained column of
    that constraint, its referenced column one of the referred columns, the
    schema and the table are not empty, and the full name is the schema,
    a dot and the table. *)
Theorem foreign_keys_wellformed (insp : Inspector) (fullname lcol : string) (info : FkInfo) :
  get_foreign_keys insp fullname !! lcol = Some info ->
  ref_fullname info = ref_schema info +:+ "." +:+ ref_table info
  /\ ref_schema info <> "" /\ ref_table info <> ""
  /\ exists fk : FkConstraint,
       fk ∈ insp_foreign_keys insp (parse_table fullname).2 (parse_table fullname).1
       /\ lcol ∈ constrained_columns fk
       /\ referred_table fk = Some (ref_table info)
       /\ ref_column info ∈ referred_columns fk.
Proof.
  unfold get_foreign_keys. destruct (parse_table fullname) as [schema name]. simpl.
  set (fks := insp_foreign_keys insp name schema).
  set (P := fun (l : string) (i : FkInfo) =>
              ref_fullname i = ref_schema i +:+ "." +:+ ref_table i
              /\ ref_schema i <> "" /\ ref_table i <> ""
              /\ exists fk : FkConstraint,
                   fk ∈ fks /\ l ∈ constrained_columns fk
                   /\ referred_table fk = Some (ref_table i)
                   /\ ref_column i ∈ referred_columns fk).
  revert lcol info.
  apply (fold_left_inv (fun m : gmap string FkInfo => forall l i, m !! l = Some i -> P l i)).
  - intros l i. rewrite lookup_empty. discriminate.
  - intros m fk Hfk IH. unfold fk_step.
    destruct (referred_table fk) as [rtable|] eqn:Ert; [|exact IH].
    destruct (constrained_columns fk) as [|lc0 lcs] eqn:Elc; [exact IH|].
    destruct (referred_columns fk) as [|rc0 rcs] eqn:Erc; [exact IH|].
    destruct (bool_decide (rtable = "")) eqn:Hrt; [exact IH|].
    apply bool_decide_eq_false_1 in Hrt.
    apply (fold_left_inv (fun m : gmap string FkInfo => forall l i, m !! l = Some i -> P l i));
      [exact IH|].
    intros m' [idx lc] Hin IH' l i Hl.
    apply lookup_insert_Some in Hl as [[<- <-]|[_ Hl]]; [|now apply IH'].
    apply list_elem_of_lookup_1 in Hin as [j Hj].
    apply list_lookup_imap_Some in Hj as (y & Hy & [= -> ->]).
    unfold P. simpl. split; [reflexivity|]. split; [|split; [exact Hrt|]].
    + destruct (Py.or_else (referred_schema fk) (Some schema)) as [s|]; [|discriminate].
      destruct (bool_decide (s = "")) eqn:Hs; [discriminate|].
      now apply bool_decide_eq_false_1 in Hs.
    + exists fk. split; [exact Hfk|]. rewrite Elc, Ert, Erc.
      split; [now apply list_elem_of_lookup_2 in Hy|]. split; [reflexivity|].
      destruct ((rc0 :: rcs) !! j) as [rc|] eqn:Hrc; simpl.
      * now apply list_elem_of_lookup_2 in Hrc.
      * left.
Qed.

Lemma foreign_keys_wellformed_witness :
  get_foreign_keys Sample.insp "public.investors" !! "sponsor_id" = Some sample_fk
  /\ (ref_fullname sample_fk = ref_schema sample_fk +:+ "." +:+ ref_table sample_fk
      /\ ref_schema sample_fk <> "" /\ ref_table sample_fk <> ""
      /\ exists fk : FkConstraint,
           fk ∈ insp_foreign_keys Sample.insp (parse_table "public.investors").2
                  (parse_table "public.investors").1
           /\ "sponsor_id" ∈ constrained_columns fk
           /\ referred_table fk = Some (ref_table sample_fk)
           /\ ref_column sample_fk ∈ referred_columns fk).
Proof.
  assert (H : get_foreign_keys Sample.insp "public.investors" !! "sponsor_id"
              = Some sample_fk) by (vm_compute; reflexivity).
  split; [exact H|].
  exact (foreign_keys_wellformed Sample.insp "public.investors" "sponsor_id" sample_fk H).
Defined.

(** ** The label column *)

Lemma omap_find_first {A} (f : string -> option A) (prefs : list string) (i : nat) (p : string) :
  prefs !! i = Some p ->
  is_Some (f p) ->
  (forall j q, (j < i)%nat -> prefs !! j = Some q -> f q = None) ->
  head (omap f prefs) = f p.
Proof.
  revert i. induction prefs as [|q prefs IH]; intros i Hi [a Ha] Hfirst; [discriminate|].
  destruct i as [|i]; simpl in *.
  - injection Hi as ->. now rewrite Ha.
  - rewrite (Hfirst 0%nat q) by (lia || reflexivity). simpl.
    apply (IH i Hi); [now exists a|].
    intros j q' Hj Hq. apply (Hfirst (S j) q'); [lia | exact Hq].
Qed.

Lemma has_name_find (name : string) (cols : list ColMeta) :
  has_name name cols = true ->
  exists c, find (fun c => bool_decide (Py.lower (cm_name c) = name)) cols = Some c
            /\ Py.lower (cm_name c) = name.
Proof.
  unfold has_name. intros H. apply bool_decide_eq_true_1, Exists_exists in H as (c & Hin & Hc).
  destruct (find _ cols) as [c'|] eqn:E.
  - exists c'. split; [reflexivity|]. apply find_some in E as [_ E].
    now apply bool_decide_eq_true_1 in E.
  - apply list_elem_of_In in Hin. apply (find_none _ _ E c) in Hin.
    now apply bool_decide_eq_false_1 in Hin.
Qed.

Lemma has_name_false_find (name : string) (cols : list ColMeta) :
  has_name name cols = false ->
  find (fun c => bool_decide (Py.lower (cm_name c) = name)) cols = None.
Proof.
  unfold has_name. intros H. apply bool_decide_eq_false_1 in H.
  destruct (find _ cols) as [c|] eqn:E; [|reflexivity].
  apply find_some in E as [Hin Hc]. exfalso. apply H, Exists_exists.
  exists c. split; [now apply list_elem_of_In | now apply bool_decide_eq_true_1 in Hc].
Qed.

(** X6. The label of a table is the composite marker, or the name of a
    text-typed column of the table; only when the table has no text-typed
    column is it the first primary-key column, without a primary key the
    first column, and ["id"] for a table that has neither. *)
Theorem pick_label_fallback_chain (insp : Inspector) (fullname : string) :
  let cols := get_columns insp fullname in
  let r := pick_label_column insp fullname in
  r = "first_name last_name"
  \/ (exists c, c ∈ cols /\ _is_text_type (cm_type c) = true /\ r = cm_name c)
  \/ ((forall c, c ∈ cols -> _is_text_type (cm_type c) = false)
      /\ ((exists pks, primary_key_or_nil insp fullname = r :: pks)
          \/ (primary_key_or_nil insp fullname = []
              /\ exists c rest, cols = c :: rest /\ r = cm_name c)
          \/ (primary_key_or_nil insp fullname = [] /\ cols = [] /\ r = "id"))).
Proof.
  intros cols r. subst r. unfold pick_label_column. fold cols.
  set (text_cols := filter (fun c => _is_text_type (cm_type c) = true) cols).
  assert (Htext : forall c, c ∈ text_cols -> c ∈ cols /\ _is_text_type (cm_type c) = true).
  { intros c Hc. apply list_elem_of_filter in Hc. tauto. }
  destruct (has_name "first_name" text_cols && has_name "last_name" text_cols); [now left|].
  right.
  destruct (omap _ preferred) as [|c found] eqn:Eo.
  - destruct text_cols as [|c tcs] eqn:Et.
    + right. split.
      { intros c Hc. destruct (_is_text_type (cm_type c)) eqn:T; [|reflexivity].
        assert (Hin : c ∈ text_cols) by (apply list_elem_of_filter; tauto).
        rewrite Et in Hin. inversion Hin. }
      destruct (primary_key_or_nil insp fullname) as [|pk0 pks]; [|left; now exists pks].
      right. destruct cols as [|c rest].
      * right. tauto.
      * left. split; [reflexivity|]. now exists c, rest.
    + left. exists c. destruct (Htext c) as [H1 H2]; [left|]. tauto.
  - left. exists c.
    assert (Hc : c ∈ omap (fun pname =>
                   find (fun c => bool_decide (Py.lower (cm_name c) = pname)) text_cols)
                   preferred) by (rewrite Eo; left).
    apply list_elem_of_omap in Hc as (pname & _ & Hf).
    apply find_some in Hf as [Hin _]. apply list_elem_of_In in Hin.
    destruct (Htext c Hin). tauto.
Qed.

(** X7. Without the composite, the preferred names are tried in their
    order: when [p] is the first preferred name that a text-typed column
    of the table bears (without case), the label is the name of such a
    column, as the table spells it. *)
Theorem pick_label_preferred_order (insp : Inspector) (fullname : string) (i : nat)
    (p : string) :
  let text_cols :=
    filter (fun c => _is_text_type (cm_type c) = true) (get_columns insp fullname) in
  has_name "first_name" text_cols && has_name "last_name" text_cols = false ->
  preferred !! i = Some p ->
  has_name p text_cols = true ->
  (forall j q, (j < i)%nat -> preferred !! j = Some q -> has_name q text_cols = false) ->
  Py.lower (pick_label_column insp fullname) = p
  /\ exists c, c ∈ get_columns insp fullname /\ _is_text_type (cm_type c) = true
               /\ pick_label_column insp fullname = cm_name c.
Proof.
  intros text_cols Hcomp Hi Hp Hfirst. unfold pick_label_column. fold text_cols.
  rewrite Hcomp.
  destruct (has_name_find p text_cols Hp) as (c & Hfind & Hlow).
  assert (Hhead : head (omap (fun pname =>
                    find (fun c => bool_decide (Py.lower (cm_name c) = pname)) text_cols)
                    preferred) = Some c).
  { rewrite <- Hfind.
    apply (omap_find_first
             (fun pname => find (fun c => bool_decide (Py.lower (cm_name c) = pname)) text_cols)
             preferred i p Hi).
    - rewrite Hfind. now exists c.
    - intros j q Hj Hq. apply has_name_false_find. now apply (Hfirst j q). }
  destruct (omap _ preferred) as [|c' found]; [discriminate|].
  injection Hhead as ->. split; [exact Hlow|].
  exists c. apply find_some in Hfind as [Hin _].
  apply list_elem_of_In, list_elem_of_filter in Hin. tauto.
Qed.

Lemma pick_label_preferred_order_witness :
  let text_cols :=
    filter (fun c => _is_text_type (cm_type c) = true)
           (get_columns Sample.insp "public.leader") in
  has_name "first_name" text_cols && has_name "last_name" text_cols = false
  /\ preferred !! 2%nat = Some "title"
  /\ has_name "title" text_cols = true
  /\ (forall j q, (j < 2)%nat -> preferred !! j = Some q -> has_name q text_cols = false)
  /\ (Py.lower (pick_label_column Sample.insp "public.leader") = "title"
      /\ exists c, c ∈ get_columns Sample.insp "public.leader"
                   /\ _is_text_type (cm_type c) = true
                   /\ pick_label_column Sample.insp "public.leader" = cm_name c).
Proof.
  intros text_cols.
  assert (H1 : has_name "first_name" text_cols && has_name "last_name" text_cols = false)
    by (vm_compute; reflexivity).
  assert (H2 : has_name "title" text_cols = true) by (vm_compute; reflexivity).
  assert (H3 : forall j q, (j < 2)%nat -> preferred !! j = Some q ->
                           has_name q text_cols = false).
  { intros [|[|j]] q Hj Hq; [| |lia]; injection Hq as <-; vm_compute; reflexivity. }
  split; [exact H1|]. split; [reflexivity|]. split; [exact H2|]. split; [exact H3|].
  exact (pick_label_preferred_order Sample.insp "public.leader" 2 "title" H1 eq_refl H2 H3).
Defined.

(** ** The option query *)

Lemma label_expr_columns (table : list Column) (label_col : string) (lbl : LabelExpr) :
  label_expr table label_col = Some lbl ->
  match lbl with
  | LabelColumn c => c = label_col /\ is_Some (table_c_get table c)
  | LabelConcat a b =>
      Py.split_nonempty " " label_col = [a; b]
      /\ is_Some (table_c_get table a) /\ is_Some (table_c_get table b)
  end.
Proof.
  unfold label_expr.
  assert (Hcol : (fun _ : Column => LabelColumn label_col) <$> table_c_get table label_col
                 = Some lbl ->
                 match lbl with
                 | LabelColumn c => c = label_col /\ is_Some (table_c_get table c)
                 | LabelConcat a b =>
                     Py.split_nonempty " " label_col = [a; b]
                     /\ is_Some (table_c_get table a) /\ is_Some (table_c_get table b)
                 end).
  { destruct (table_c_get table label_col) as [c|] eqn:E; [|discriminate].
    intros [= <-]. split; [reflexivity|]. rewrite E. now exists c. }
  destruct (Py.contains_char " " label_col); [|exact Hcol].
  destruct (Py.split_nonempty " " label_col) as [|a [|b [|x parts]]]; try exact Hcol.
  destruct (table_c_get table a) as [ca|] eqn:Ea; [|exact Hcol].
  destruct (table_c_get table b) as [cb|] eqn:Eb; [|exact Hcol].
  intros [= <-]. rewrite Ea, Eb. split; [reflexivity|]. split; eauto.
Qed.

(** X8. Fetching options leaves the store as it was and sends at most
    one statement. It sends none, and answers with no option, when the id
    column or the label cannot be found among the columns of the table;
    otherwise the one statement is the option query on that table, whose
    id and label columns are columns of the table, with the limit asked
    for, and the answer has one option for each row of its result. *)
Theorem fetch_options_statement (insp : Inspector) (D : Db) (fullname id_col label_col : string)
    (limit : Z) (w : World D) :
  let table := reflect_table insp fullname in
  exists (r : DbError + list OptionEntry) (evs : list Event),
    fetch_fk_options insp D fullname id_col label_col limit w
    = (r, {| w_store := w_store w; w_log := w_log w ++ evs |})
    /\ ((evs = [] /\ r = inr []
         /\ (table_c_get table id_col = None \/ label_expr table label_col = None))
        \/ exists lbl : LabelExpr,
             evs = [EvExecute (StSelectOptions (parse_table fullname) id_col lbl limit)]
             /\ is_Some (table_c_get table id_col)
             /\ match lbl with
                | LabelColumn c => c = label_col /\ is_Some (table_c_get table c)
                | LabelConcat a b =>
                    Py.split_nonempty " " label_col = [a; b]
                    /\ is_Some (table_c_get table a) /\ is_Some (table_c_get table b)
                end
             /\ match db_query D (w_store w)
                        (StSelectOptions (parse_table fullname) id_col lbl limit) with
                | inl e => r = inl e
                | inr rows => exists opts, r = inr opts /\ length opts = length rows
                end).
Proof.
  intros table. unfold fetch_fk_options. fold table.
  destruct (table_c_get table id_col) as [c|] eqn:Eid.
  - destruct (label_expr table label_col) as [lbl|] eqn:El.
    + unfold bind, execute_query.
      destruct (db_query D (w_store w) _) as [e|rows] eqn:Eq.
      * eexists _, [_]. split; [reflexivity|]. right. exists lbl.
        split; [reflexivity|]. split; [now exists c|].
        split; [now apply label_expr_columns|]. now rewrite Eq.
      * eexists _, [_]. split; [reflexivity|]. right. exists lbl.
        split; [reflexivity|]. split; [now exists c|].
        split; [now apply label_expr_columns|]. rewrite Eq.
        eexists. split; [reflexivity|]. now rewrite length_map.
    + exists (inr []), []. unfold ret. rewrite world_app_nil. split; [reflexivity|].
      left. tauto.
  - exists (inr []), []. unfold ret. rewrite world_app_nil. split; [reflexivity|].
    left. tauto.
Qed.

(** ** Computations that return *)

Lemma returns_ret {D A} (E : Event -> Prop) (Q : A -> Prop) (a : A) :
  Q a -> returns (D:=D) E Q (ret a).
Proof.
  intros Ha w. exists a, []. unfold ret. rewrite world_app_nil.
  split; [reflexivity|]. split; [constructor | exact Ha].
Qed.

Lemma returns_bind {D A B} (E : Event -> Prop) (Qa : A -> Prop) (Qb : B -> Prop)
    (m : M D A) (k : A -> M D B) :
  returns E Qa m -> (forall a, Qa a -> returns E Qb (k a)) -> returns E Qb (bind m k).
Proof.
  intros Hm Hk w. destruct (Hm w) as (a & evs1 & E1 & F1 & Ha).
  destruct (Hk a Ha {| w_store := w_store w; w_log := w_log w ++ evs1 |})
    as (b & evs2 & E2 & F2 & Hb).
  exists b, (evs1 ++ evs2). split; [|split; [now apply Forall_app | exact Hb]].
  unfold bind. rewrite E1, E2. simpl. now rewrite app_assoc.
Qed.

Lemma returns_mapM {D A B} (E : Event -> Prop) (R : A -> B -> Prop)
    (f : A -> M D B) (l : list A) :
  (forall x, returns E (R x) (f x)) -> returns E (Forall2 R l) (mapM f l).
Proof.
  intros Hf. induction l as [|x l IH]; simpl.
  - apply returns_ret. constructor.
  - apply (returns_bind E (R x)); [apply Hf|]. intros y Hy.
    apply (returns_bind E (Forall2 R l)); [exact IH|]. intros ys Hys.
    apply returns_ret. now constructor.
Qed.

Lemma returns_options_or_nil (insp : Inspector) (D : Db) (ref_full id_col label_col : string) :
  returns (fun ev => is_options_query ev = true) (fun _ => True)
          (options_or_nil insp D ref_full id_col label_col).
Proof.
  intros w. destruct (reads_options_or_nil insp D ref_full id_col label_col w)
    as (a & evs & E & F).
  now exists a, evs.
Qed.

(** ** The columns of the insert form *)




(** ** More on the coercion of a form *)

Lemma coercion_ignores_unknown_fields_aux (insp : Inspector) (L : Lib) (fullname : string)
    (form : Form) (n : string) :
  n ∉ map col_name (reflect_table insp fullname) ->
  (coerce_form insp L fullname form).1 !! n = None.
Proof.
  intros Hn. unfold coerce_form.
  destruct (coerce_fold_other insp L fullname form (reflect_table insp fullname) (∅, ∅) n Hn)
    as [-> _].
  apply lookup_empty.
Qed.

(** X10. A submitted field that is not a column of the table is ignored:
    neither the value set nor the errors get its name. *)
Theorem coercion_ignores_unknown_fields (insp : Inspector) (L : Lib) (fullname : string)
    (form : Form) (n : string) :
  n ∉ map col_name (reflect_table insp fullname) ->
  (coerce_form insp L fullname form).1 !! n = None
  /\ (coerce_form insp L fullname form).2 !! n = None.
Proof.
  intros Hn. unfold coerce_form.
  destruct (coerce_fold_other insp L fullname form (reflect_table insp fullname) (∅, ∅) n Hn)
    as [-> ->].
  split; apply lookup_empty.
Qed.

Lemma coercion_ignores_unknown_fields_witness :
  form_get "is_admin" [("name", "Ada"); ("is_admin", "1")] = Some "1"
  /\ ("is_admin" ∉ map col_name (reflect_table Sample.insp "public.investors"))
  /\ ((coerce_form Sample.insp Sample.lib "public.investors"
         [("name", "Ada"); ("is_admin", "1")]).1 !! "is_admin" = None
      /\ (coerce_form Sample.insp Sample.lib "public.investors"
            [("name", "Ada"); ("is_admin", "1")]).2 !! "is_admin" = None).
Proof.
  split; [reflexivity|].
  assert (H : "is_admin" ∉ map col_name (reflect_table Sample.insp "public.investors")).
  { apply (bool_decide_unpack _). vm_compute. exact I. }
  split; [exact H|].
  exact (coercion_ignores_unknown_fields Sample.insp Sample.lib "public.investors"
           [("name", "Ada"); ("is_admin", "1")] "is_admin" H).
Defined.

(** X11. An entry of the errors comes from a parse failure and from
    nothing else: its name is a column of the table of an integer,
    numeric or JSON type, whose submitted value is not blank and is
    refused by the conversion, and its message is ["Invalid value: "]
    followed by the text of that failure. *)
Theorem coercion_errors_are_parse_failures (insp : Inspector) (L : Lib) (fullname : string)
    (form : Form) (n msg : string) :
  (coerce_form insp L fullname form).2 !! n = Some msg ->
  exists (col : Column) (raw ex : string),
    col ∈ reflect_table insp fullname /\ col_name col = n
    /\ form_get n form = Some raw /\ raw <> ""
    /\ convert L (col_type col) raw = inl ex
    /\ msg = "Invalid value: " +:+ ex
    /\ ((_is_int_type (col_type col) || _is_num_type (col_type col)
         || _is_json_type (col_type col)) = true).
Proof.
  unfold coerce_form. revert n msg.
  apply (fold_left_inv
           (fun acc : gmap string PyVal * gmap string string =>
              forall n msg, acc.2 !! n = Some msg ->
                exists (col : Column) (raw ex : string),
                  col ∈ reflect_table insp fullname /\ col_name col = n
                  /\ form_get n form = Some raw /\ raw <> ""
                  /\ convert L (col_type col) raw = inl ex
                  /\ msg = "Invalid value: " +:+ ex
                  /\ ((_is_int_type (col_type col) || _is_num_type (col_type col)
                       || _is_json_type (col_type col)) = true))).
  - intros n msg. simpl. rewrite lookup_empty. discriminate.
  - intros [values errors] col Hin IH n msg. unfold coerce_step.
    destruct (bool_decide _ && is_blank _); [apply IH|].
    destruct (form_get (col_name col) form) as [raw|] eqn:Hraw; [|apply IH].
    destruct (bool_decide (raw = "")) eqn:Hblank; [apply IH|].
    destruct (convert L (col_type col) raw) as [ex|v] eqn:Hconv; [|apply IH].
    simpl. intros H. apply lookup_insert_Some in H as [[<- <-]|[_ H]]; [|now apply IH].
    exists col, raw, ex. split; [exact Hin|]. split; [reflexivity|].
    split; [exact Hraw|]. split; [now apply bool_decide_eq_false_1 in Hblank|].
    split; [exact Hconv|]. split; [reflexivity|].
    unfold convert in Hconv.
    destruct (_is_int_type (col_type col)); [reflexivity|].
    destruct (_is_num_type (col_type col)); [reflexivity|].
    destruct (_is_bool_type (col_type col)); [discriminate|].
    destruct (_is_date_type (col_type col)); [discriminate|].
    destruct (_is_json_type (col_type col)); [reflexivity|].
    destruct (_is_binary_type (col_type col)); discriminate.
Qed.

Lemma coercion_errors_are_parse_failures_witness :
  (coerce_form Sample.insp Sample.lib "public.investors" [("shares", "12a")]).2 !! "shares"
  = Some "Invalid value: invalid literal for int() with base 10: '12a'"
  /\ exists (col : Column) (raw ex : string),
       col ∈ reflect_table Sample.insp "public.investors" /\ col_name col = "shares"
       /\ form_get "shares" [("shares", "12a")] = Some raw /\ raw <> ""
       /\ convert Sample.lib (col_type col) raw = inl ex
       /\ "Invalid value: invalid literal for int() with base 10: '12a'"
          = "Invalid value: " +:+ ex
       /\ ((_is_int_type (col_type col) || _is_num_type (col_type col)
            || _is_json_type (col_type col)) = true).
Proof.
  assert (H : (coerce_form Sample.insp Sample.lib "public.investors" [("shares", "12a")]).2
                !! "shares"
              = Some "Invalid value: invalid literal for int() with base 10: '12a'")
    by (vm_compute; reflexivity).
  split; [exact H|].
  exact (coercion_errors_are_parse_failures Sample.insp Sample.lib "public.investors"
           [("shares", "12a")] "shares" _ H).
Defined.

(** X12. With distinct column names, no name is both in the value set
    and in the errors. *)
Theorem coercion_value_or_error (insp : Inspector) (L : Lib) (fullname : string)
    (form : Form) (n : string) :
  NoDup (map col_name (reflect_table insp fullname)) ->
  (coerce_form insp L fullname form).1 !! n = None
  \/ (coerce_form insp L fullname form).2 !! n = None.
Proof.
  intros Hnd.
  destruct (decide (n ∈ map col_name (reflect_table insp fullname))) as [Hin|Hout].
  - apply list_elem_of_In, in_map_iff in Hin as (col & <- & Hin).
    apply list_elem_of_In in Hin.
    destruct (coerce_form_at insp L fullname form col Hnd Hin)
      as ([values errors] & Hv & He & -> & ->).
    simpl in Hv, He. unfold coerce_step.
    destruct (bool_decide _ && is_blank _); [now left|].
    destruct (form_get (col_name col) form) as [raw|]; [|now right].
    destruct (bool_decide (raw = "")); [now right|].
    destruct (convert L (col_type col) raw); [now left | now right].
  - left. now apply coercion_ignores_unknown_fields_aux.
Qed.

Lemma coercion_value_or_error_witness :
  NoDup (map col_name (reflect_table Sample.insp "public.investors"))
  /\ ((coerce_form Sample.insp Sample.lib "public.investors" [("shares", "12a")]).1
        !! "shares" = None
      \/ (coerce_form Sample.insp Sample.lib "public.investors" [("shares", "12a")]).2
           !! "shares" = None).
Proof.
  assert (Hnd : NoDup (map col_name (reflect_table Sample.insp "public.investors"))).
  { apply (bool_decide_unpack _). vm_compute. exact I. }
  split; [exact Hnd|].
  exact (coercion_value_or_error Sample.insp Sample.lib "public.investors"
           [("shares", "12a")] "shares" Hnd).
Defined.

(** X13. With distinct column names, a non-blank value of a column that
    is not of an integer, numeric or JSON type never gives an error: a
    boolean column gets [True] exactly for the texts [on], [true], [1]
    and [True] and [False] for every other text, a binary column gets the
    bytes of the text, and every other column, a date column included,
    gets the text as it was submitted. *)
Theorem coercion_passes_text_through (insp : Inspector) (L : Lib) (fullname : string)
    (form : Form) (col : Column) (raw : string) :
  NoDup (map col_name (reflect_table insp fullname)) ->
  col ∈ reflect_table insp fullname ->
  form_get (col_name col) form = Some raw ->
  raw <> "" ->
  (_is_int_type (col_type col) || _is_num_type (col_type col)
   || _is_json_type (col_type col)) = false ->
  (coerce_form insp L fullname form).2 !! col_name col = None
  /\ (coerce_form insp L fullname form).1 !! col_name col
     = Some (if _is_bool_type (col_type col)
             then VBool (bool_decide (raw ∈ ["on"; "true"; "1"; "True"]))
             else if _is_binary_type (col_type col) then VBytes raw
                  else VStr raw).
Proof.
  intros Hnd Hin Hraw Hne Hty.
  destruct (coerce_form_at insp L fullname form col Hnd Hin)
    as ([values errors] & Hv & He & -> & ->).
  simpl in Hv, He. unfold coerce_step. rewrite Hraw. simpl.
  rewrite (bool_decide_eq_false_2 (raw = "")) by exact Hne.
  rewrite andb_false_r.
  assert (Hconv : convert L (col_type col) raw
                  = inr (if _is_bool_type (col_type col)
                         then VBool (bool_decide (raw ∈ ["on"; "true"; "1"; "True"]))
                         else if _is_binary_type (col_type col) then VBytes raw
                              else VStr raw)).
  { unfold convert. destruct (col_type col); simpl in *; try discriminate; reflexivity. }
  rewrite Hconv. simpl. rewrite lookup_insert_eq. split; [exact He | reflexivity].
Qed.

Lemma coercion_passes_text_through_witness :
  let col := {| col_name := "active"; col_type := TBoolean; col_identity := false |} in
  NoDup (map col_name (reflect_table Sample.insp "public.investors"))
  /\ col ∈ reflect_table Sample.insp "public.investors"
  /\ form_get (col_name col) [("active", "TRUE")] = Some "TRUE"
  /\ "TRUE" <> ""
  /\ (_is_int_type (col_type col) || _is_num_type (col_type col)
      || _is_json_type (col_type col)) = false
  /\ (coerce_form Sample.insp Sample.lib "public.investors" [("active", "TRUE")]).1
       !! "active" = Some (VBool false)
  /\ ((coerce_form Sample.insp Sample.lib "public.investors" [("active", "TRUE")]).2
        !! col_name col = None
      /\ (coerce_form Sample.insp Sample.lib "public.investors" [("active", "TRUE")]).1
           !! col_name col
         = Some (if _is_bool_type (col_type col)
                 then VBool (bool_decide ("TRUE" ∈ ["on"; "true"; "1"; "True"]))
                 else if _is_binary_type (col_type col) then VBytes "TRUE"
                      else VStr "TRUE")).
Proof.
  intros col.
  assert (Hnd : NoDup (map col_name (reflect_table Sample.insp "public.investors"))).
  { apply (bool_decide_unpack _). vm_compute. exact I. }
  assert (Hin : col ∈ reflect_table Sample.insp "public.investors").
  { vm_compute. do 2 right. left. }
  split; [exact Hnd|]. split; [exact Hin|]. split; [reflexivity|].
  split; [discriminate|]. split; [reflexivity|]. split; [vm_compute; reflexivity|].
  apply (coercion_passes_text_through Sample.insp Sample.lib "public.investors"
           [("active", "TRUE")] col "TRUE" Hnd Hin eq_refl); [discriminate | reflexivity].
Defined.

(** ** More on the error map *)

Lemma error_map_singleton (e : DbError) :
  exists k v : string,
    constraint_error_map e = {[ k := v ]}
    /\ (k = "_global" \/ (error_diag e ≫= column_name = Some k /\ k <> "")).
Proof.
  unfold constraint_error_map.
  set (col := error_diag e ≫= column_name).
  assert (Hcol : Py.truthy col = true -> col = Some (default "" col) /\ default "" col <> "").
  { intros H. apply truthy_Some in H as (s & -> & Hs). now split. }
  destruct (Py.truthy col) eqn:T; [specialize (Hcol eq_refl) | clear Hcol];
    rewrite ?andb_false_r, ?andb_true_r;
    repeat match goal with
           | |- context [if ?b then _ else _] => destruct b
           end;
    eexists _, _; (split; [reflexivity|]);
    first [left; reflexivity | right; exact Hcol].
Qed.

(** X14. The error map of a failed insert always has exactly one entry.
    Its key is the global key or the column that the diagnostic names,
    which is then not empty: no failure is reported against a column that
    the store did not name. *)
Theorem error_map_has_one_entry (e : DbError) :
  exists k v : string,
    constraint_error_map e = {[ k := v ]}
    /\ (k = "_global" \/ (error_diag e ≫= column_name = Some k /\ k <> ""))
    /\ constraint_error_map e <> ∅.
Proof.
  destruct (error_map_singleton e) as (k & v & Hmap & Hk).
  exists k, v. split; [exact Hmap|]. split; [exact Hk|].
  rewrite Hmap. intros H. apply (f_equal (fun m => m !! k)) in H.
  rewrite lookup_singleton_eq, lookup_empty in H. discriminate H.
Qed.

(** X15. When the diagnostic names a column, a not-null violation (23502),
    a foreign-key violation (23503), a too long string (22001) and a
    number out of range (22003) are reported against that column with a
    fixed message each, and a check violation (23514) is reported under
    the global key all the same. *)
Theorem field_scoped_messages (e : DbError) (c : string) :
  error_diag e ≫= column_name = Some c ->
  c <> "" ->
  (error_sqlstate e = Some "23502" ->
   constraint_error_map e = {[ c := "Required (NOT NULL)." ]})
  /\ (error_sqlstate e = Some "23503" ->
      constraint_error_map e = {[ c := "Invalid reference (foreign key)." ]})
  /\ (error_sqlstate e = Some "22001" ->
      constraint_error_map e = {[ c := "Value too long for this column." ]})
  /\ (error_sqlstate e = Some "22003" ->
      constraint_error_map e = {[ c := "Numeric value out of range." ]})
  /\ (error_sqlstate e = Some "23514" ->
      exists v, constraint_error_map e = {[ "_global" := v ]}).
Proof.
  intros Hc Hne.
  assert (Ht : Py.truthy (Some c) = true).
  { simpl. now rewrite bool_decide_eq_false_2 by exact Hne. }
  repeat split; intros Hs; unfold constraint_error_map; rewrite Hs, Hc, Ht; simpl;
    rewrite ?orb_true_r; try reflexivity.
  eexists. reflexivity.
Qed.

Lemma field_scoped_messages_witness :
  let e := {| is_integrity_error := true; is_data_error := false;
              orig := Some {| sqlstate := Some "23502"; pgcode := None;
                              diag := Some {| column_name := Some "name";
                                              constraint_name := None;
                                              message_primary := Some "null value in column";
                                              message_detail := None;
                                              message_hint := None |} |};
              str_e := "(psycopg.errors.NotNullViolation) null value in column" |} in
  error_diag e ≫= column_name = Some "name"
  /\ "name" <> ""
  /\ error_sqlstate e = Some "23502"
  /\ constraint_error_map e = {[ "name" := "Required (NOT NULL)." ]}.
Proof.
  intros e. split; [reflexivity|]. split; [discriminate|]. split; [reflexivity|].
  destruct (field_scoped_messages e "name" eq_refl) as [H _]; [discriminate|].
  apply H. reflexivity.
Defined.

(** ** The outcome of an insert *)

(** X16. An insert request always gets an answer. A success page shows
    the coerced value set, there was no coercion error, the one statement
    sent is the insert of exactly these values and the store is the one
    the insert produced. A form page echoes the submitted form with at
    least one error, and the store is the one the request started from. *)
Theorem insert_changes_store_on_success_only (insp : Inspector) (D : Db) (L : Lib)
    (table_name : string) (form : Form) (w : World D) :
  exists (out : InsertOutcome) (evs : list Event) (w' : World D),
    insert_post insp D L table_name form w = (inr out, w')
    /\ w_log w' = w_log w ++ evs
    /\ match out with
       | RenderInsertSuccess values =>
           values = (coerce_form insp L (qualify table_name) form).1
           /\ (coerce_form insp L (qualify table_name) form).2 = ∅
           /\ db_exec D (w_store w) (StInsert (parse_table (qualify table_name)) values)
              = inr (w_store w')
           /\ evs = [EvExecute (StInsert (parse_table (qualify table_name)) values)]
       | RenderInsertForm _ errors prev =>
           w_store w' = w_store w /\ prev = form /\ errors <> ∅
       | InsertHttpError _ _ => w_store w' = w_store w
       end.
Proof.
  unfold insert_post, catch.
  destruct (coerce_form insp L (qualify table_name) form) as [vs es] eqn:Hc. simpl.
  destruct (bool_decide (es = ∅)) eqn:Hes; simpl.
  - apply bool_decide_eq_true_1 in Hes. subst es.
    unfold bind at 1. unfold execute_commit.
    destruct (db_exec D (w_store w) _) as [e|s'] eqn:Hexec.
    + destruct (reads_build_insert_columns insp D (qualify table_name)
                  {| w_store := w_store w;
                     w_log := w_log w
                              ++ [EvExecute (StInsert (parse_table (qualify table_name)) vs)] |})
        as (cols & evs & E & _).
      unfold bind. rewrite E. simpl.
      eexists _, (_ ++ evs), _. split; [reflexivity|]. simpl.
      split; [now rewrite app_assoc|]. split; [reflexivity|]. split; [reflexivity|].
      destruct (error_map_singleton e) as (k & v & -> & _).
      intros H. apply (f_equal (fun m => m !! k)) in H.
      rewrite lookup_singleton_eq, lookup_empty in H. discriminate H.
    + unfold ret. simpl. eexists _, [_], _. split; [reflexivity|]. simpl.
      split; [reflexivity|]. split; [reflexivity|]. split; [reflexivity|].
      split; [exact Hexec | reflexivity].
  - apply bool_decide_eq_false_1 in Hes.
    destruct (reads_build_insert_columns insp D (qualify table_name) w)
      as (cols & evs & E & _).
    unfold bind. rewrite E. simpl.
    eexists _, evs, _. split; [reflexivity|]. simpl.
    split; [reflexivity|]. split; [reflexivity|]. split; [reflexivity | exact Hes].
Qed.

(** ** The dictionary of procedures *)

Lemma dict_set_keys {A} (k : string) (v : A) (d : list (string * A)) :
  map fst (dict_set k v d) = if bool_decide (k ∈ map fst d) then map fst d
                             else map fst d ++ [k].
Proof.
  induction d as [|[k' v'] d IH]; simpl; [reflexivity|].
  destruct (bool_decide (k' = k)) eqn:Hk; simpl.
  - apply bool_decide_eq_true_1 in Hk. subst k'.
    rewrite bool_decide_eq_true_2 by left. reflexivity.
  - apply bool_decide_eq_false_1 in Hk. rewrite IH.
    destruct (bool_decide (k ∈ map fst d)) eqn:Hin.
    + apply bool_decide_eq_true_1 in Hin.
      rewrite bool_decide_eq_true_2 by now right. reflexivity.
    + apply bool_decide_eq_false_1 in Hin.
      rewrite bool_decide_eq_false_2; [reflexivity|].
      intros H. apply elem_of_cons in H as [->|H]; [now apply Hk | now apply Hin].
Qed.

Lemma dict_set_NoDup {A} (k : string) (v : A) (d : list (string * A)) :
  NoDup (map fst d) -> NoDup (map fst (dict_set k v d)).
Proof.
  intros Hnd. rewrite dict_set_keys.
  destruct (bool_decide (k ∈ map fst d)) eqn:Hin; [exact Hnd|].
  apply bool_decide_eq_false_1 in Hin.
  apply NoDup_app. split; [exact Hnd|]. split.
  - intros x Hx Hk. apply list_elem_of_singleton in Hk. subst x. now apply Hin.
  - apply NoDup_singleton.
Qed.

(** Setting a key of an ordered dictionary: the key then reads as
    the new value, every other key reads as before, an existing key keeps
    its place and a new key goes to the end, and distinct keys stay
    distinct. *)
Lemma dict_set_get {A} (k : string) (v : A) (d : list (string * A)) :
  dict_get k (dict_set k v d) = Some v
  /\ (forall k', k' <> k -> dict_get k' (dict_set k v d) = dict_get k' d)
  /\ map fst (dict_set k v d)
     = (if bool_decide (k ∈ map fst d) then map fst d else map fst d ++ [k])
  /\ (NoDup (map fst d) -> NoDup (map fst (dict_set k v d))).
Proof.
  split; [|split; [|split; [apply dict_set_keys | apply dict_set_NoDup]]].
  - induction d as [|[k' v'] d IH]; unfold dict_get in *; simpl.
    + now rewrite bool_decide_eq_true_2 by reflexivity.
    + destruct (bool_decide (k' = k)) eqn:Hk; simpl.
      * now rewrite bool_decide_eq_true_2 by reflexivity.
      * rewrite Hk. exact IH.
  - intros k' Hne. induction d as [|[k1 v1] d IH]; unfold dict_get in *; simpl.
    + now rewrite bool_decide_eq_false_2 by congruence.
    + destruct (bool_decide (k1 = k)) eqn:Hk; simpl.
      * apply bool_decide_eq_true_1 in Hk. subst k1.
        now rewrite !bool_decide_eq_false_2 by congruence.
      * destruct (bool_decide (k1 = k')); [reflexivity | exact IH].
Qed.

Lemma dict_set_elem {A} (k n : string) (v : A) (d : list (string * A)) :
  n ∈ map fst (dict_set k v d) <-> n = k \/ n ∈ map fst d.
Proof.
  rewrite dict_set_keys. destruct (bool_decide (k ∈ map fst d)) eqn:Hin.
  - apply bool_decide_eq_true_1 in Hin. split; [tauto|]. intros [->|H]; assumption.
  - rewrite elem_of_app, list_elem_of_singleton. tauto.
Qed.

Lemma procedures_loop_spec (D : Db) (rows : list Row) :
  forall (acc : list (string * list Param)) (w : World D),
    exists (r : DbError + list (string * list Param)) (evs : list Event),
      procedures_loop D rows acc w
      = (r, {| w_store := w_store w; w_log := w_log w ++ evs |})
      /\ Forall (fun ev => is_text_query ev = true) evs
      /\ forall procs, r = inr procs ->
           (NoDup (map fst acc) -> NoDup (map fst procs))
           /\ forall n, n ∈ map fst procs
                        <-> n ∈ map fst acc
                            \/ exists row, row ∈ rows /\ row_str 0 row = Some n.
Proof.
  induction rows as [|row rows IH]; intros acc w; simpl.
  - exists (inr acc), []. unfold ret. rewrite world_app_nil.
    split; [reflexivity|]. split; [constructor|].
    intros procs [= <-]. split; [tauto|]. intros n. split; [tauto|].
    intros [H|(row & Hrow & _)]; [exact H | inversion Hrow].
  - destruct (row_str 0 row) as [name|] eqn:Hname.
    + unfold bind, execute_query.
      destruct (db_query D (w_store w) _) as [e|params_res].
      * eexists (inl e), [_]. split; [reflexivity|]. split; [now repeat constructor|].
        intros procs H. discriminate H.
      * set (acc' := dict_set name _ acc).
        destruct (IH acc' {| w_store := w_store w;
                             w_log := w_log w ++ [EvExecute (StText (parameters_sql
                                        (cell_text (snd <$> row !! 1%nat))) [])] |})
          as (r & evs & E & F & Hr).
        simpl in E. rewrite E. eexists r, (_ :: evs).
        split; [now rewrite <- app_assoc|]. split; [now constructor|].
        intros procs Hp. destruct (Hr procs Hp) as [Hnd Hin]. split.
        -- intros Hacc. apply Hnd. now apply dict_set_NoDup.
        -- intros n. rewrite Hin. unfold acc'. rewrite dict_set_elem. split.
           ++ intros [[->|H]|(row' & Hrow' & Hn)].
              ** right. exists row. split; [left | exact Hname].
              ** now left.
              ** right. exists row'. split; [now right | exact Hn].
           ++ intros [H|(row' & Hrow' & Hn)]; [tauto|].
              apply elem_of_cons in Hrow' as [->|Hrow'].
              ** left. left. congruence.
              ** right. now exists row'.
    + destruct (IH acc w) as (r & evs & E & F & Hr).
      exists r, evs. split; [exact E|]. split; [exact F|].
      intros procs Hp. destruct (Hr procs Hp) as [Hnd Hin]. split; [exact Hnd|].
      intros n. rewrite Hin. split.
      * intros [H|(row' & Hrow' & Hn)]; [now left|].
        right. exists row'. split; [now right | exact Hn].
      * intros [H|(row' & Hrow' & Hn)]; [now left|].
        apply elem_of_cons in Hrow' as [->|Hrow']; [congruence|].
        right. now exists row'.
Qed.

Lemma get_procedures_spec (D : Db) (w : World D) :
  exists (r : DbError + list (string * list Param)) (evs : list Event),
    get_procedures_with_params D w
    = (r, {| w_store := w_store w; w_log := w_log w ++ evs |})
    /\ Forall (fun ev => is_text_query ev = true) evs
    /\ match db_query D (w_store w) (StText routines_sql []) with
       | inl e => r = inl e /\ evs = [EvExecute (StText routines_sql [])]
       | inr rows =>
           forall procs, r = inr procs ->
             NoDup (map fst procs)
             /\ forall n, n ∈ map fst procs
                          <-> exists row, row ∈ rows /\ row_str 0 row = Some n
       end.
Proof.
  unfold get_procedures_with_params, bind, execute_query.
  destruct (db_query D (w_store w) (StText routines_sql [])) as [e|rows].
  - eexists (inl e), [_]. split; [reflexivity|]. split; [now repeat constructor|]. now split.
  - destruct (procedures_loop_spec D rows []
                {| w_store := w_store w;
                   w_log := w_log w ++ [EvExecute (StText routines_sql [])] |})
      as (r & evs & E & F & Hr).
    simpl in E. rewrite E. eexists r, (_ :: evs).
    split; [now rewrite <- app_assoc|]. split; [now constructor|].
    intros procs Hp. destruct (Hr procs Hp) as [Hnd Hin].
    split; [apply Hnd; constructor|].
    intros n. rewrite Hin. split; [|tauto].
    intros [H|H]; [inversion H | exact H].
Qed.

(** X17. Listing the procedures leaves the store as it was and sends
    textual catalogue queries only. When the query of the routines
    fails, the failure is the answer and nothing more is sent. Otherwise
    a listing has each procedure name once, and its names are exactly
    the routine names of the rows that have one: a row without a name is
    left out, and procedures that share a name give one entry. *)
Theorem procedures_listing (D : Db) (w : World D) :
  exists (r : DbError + list (string * list Param)) (evs : list Event),
    get_procedures_with_params D w
    = (r, {| w_store := w_store w; w_log := w_log w ++ evs |})
    /\ Forall (fun ev => is_text_query ev = true) evs
    /\ match db_query D (w_store w) (StText routines_sql []) with
       | inl e => r = inl e /\ evs = [EvExecute (StText routines_sql [])]
       | inr rows =>
           forall procs, r = inr procs ->
             NoDup (map fst procs)
             /\ forall n, n ∈ map fst procs
                          <-> exists row, row ∈ rows /\ row_str 0 row = Some n
       end.
Proof. apply get_procedures_spec. Qed.

(** ** Polling with a key *)

(** X18. For a table with the one-column primary key [pk0]: without
    [after_pk] the answer is the message asking for it and nothing is
    sent; with it, when the key is not a column of the reflected table the
    answer is no rows under [pk0] and nothing is sent, and otherwise one
    statement is sent, the select of the rows after that key with the row
    limit, and the answer is its rows under [pk0], or a 500 response with
    the text of the failure. *)
Theorem polling_with_single_column_key (insp : Inspector) (D : Db) (table_name pk0 : string)
    (after_pk : option Z) (max_rows : Z) (w : World D) :
  primary_key_or_nil insp (qualify table_name) = [pk0] ->
  match after_pk with
  | None =>
      api_new_rows insp D table_name None max_rows w
      = (inr (NewRowsMessage [] "Provide after_pk to watch for new rows."), w)
  | Some a =>
      match table_c_get (reflect_table insp (qualify table_name)) pk0 with
      | None =>
          api_new_rows insp D table_name (Some a) max_rows w = (inr (NewRows [] pk0), w)
      | Some _ =>
          let stmt := StSelectAfterPk (parse_table (qualify table_name)) pk0 a max_rows in
          api_new_rows insp D table_name (Some a) max_rows w
          = (inr (match db_query D (w_store w) stmt with
                  | inr rows => NewRows rows pk0
                  | inl e => NewRowsHttpError 500 (str_e e)
                  end),
             {| w_store := w_store w; w_log := w_log w ++ [EvExecute stmt] |})
      end
  end.
Proof.
  intros Hpk. unfold api_new_rows. rewrite Hpk.
  destruct after_pk as [a|]; [|reflexivity].
  unfold select_new_rows_after_pk, catch, bind. rewrite Hpk.
  destruct (table_c_get _ pk0); [|reflexivity].
  unfold execute_query. simpl.
  destruct (db_query D (w_store w) _); reflexivity.
Qed.

Lemma polling_with_single_column_key_witness :
  primary_key_or_nil Sample.insp (qualify "investors") = ["investor_id"]
  /\ api_new_rows Sample.insp Sample.db "investors" (Some 3%Z) 50%Z Sample.world0
     = (inr (NewRows [] "investor_id"),
        {| w_store := w_store Sample.world0;
           w_log := [EvExecute (StSelectAfterPk ("public", "investors") "investor_id"
                                  3%Z 50%Z)] |}).
Proof.
  split; [reflexivity|].
  exact (polling_with_single_column_key Sample.insp Sample.db "investors" "investor_id"
           (Some 3%Z) 50%Z Sample.world0 eq_refl).
Defined.

(** ** Filters *)

Lemma table_c_get_Some (table : list Column) (n : string) (c : Column) :
  table_c_get table n = Some c -> c ∈ table /\ col_name c = n.
Proof.
  unfold table_c_get. intros H. apply find_some in H as [Hin Hn].
  split; [now apply list_elem_of_In | now apply bool_decide_eq_true_1 in Hn].
Qed.

Lemma pick_date_column_Some (table : list Column) (date_col : option string) (c : Column) :
  pick_date_column table date_col = Some c ->
  c ∈ table /\ _is_date_type (col_type c) = true.
Proof.
  unfold pick_date_column.
  destruct (Py.truthy date_col).
  - destruct (table_c_get table (default "" date_col)) as [c'|] eqn:E; simpl.
    + destruct (_is_date_type (col_type c')) eqn:Hd.
      * intros [= <-]. apply table_c_get_Some in E. tauto.
      * intros H. apply find_some in H as [Hin Hc].
        split; [now apply list_elem_of_In | exact Hc].
    + intros H. apply find_some in H as [Hin Hc].
      split; [now apply list_elem_of_In | exact Hc].
  - intros H. apply find_some in H as [Hin Hc].
    split; [now apply list_elem_of_In | exact Hc].
Qed.

(** X19. A filter only names columns of the table, of the right type: the
    text search is there only for a non-empty query, over a non-empty list
    of text-typed columns of the table, with the query between two percent
    signs as its pattern; a date bound is there only when that bound was
    given, and on a date-typed column of the table, so that a requested
    date column that is no such column never reaches the statement. *)
Theorem filters_name_existing_columns (insp : Inspector) (fullname : string)
    (q date_from date_to date_col : option string) (f : Filter) :
  f ∈ (build_filters insp fullname q date_from date_to date_col).2 ->
  match f with
  | FIlikeAny cols like =>
      cols <> []
      /\ (exists s, q = Some s /\ s <> "" /\ like = "%" +:+ s +:+ "%")
      /\ forall c, c ∈ cols ->
           exists col, col ∈ reflect_table insp fullname /\ col_name col = c
                       /\ _is_text_type (col_type col) = true
  | FDateGe c =>
      Py.truthy date_from = true
      /\ exists col, col ∈ reflect_table insp fullname /\ col_name col = c
                     /\ _is_date_type (col_type col) = true
  | FDateLe c =>
      Py.truthy date_to = true
      /\ exists col, col ∈ reflect_table insp fullname /\ col_name col = c
                     /\ _is_date_type (col_type col) = true
  end.
Proof.
  unfold build_filters. simpl. set (table := reflect_table insp fullname).
  intros Hin. apply elem_of_app in Hin as [Hin|Hin].
  - destruct (Py.truthy q) eqn:Hq; [|inversion Hin].
    destruct (filter _ table) as [|c0 tcs] eqn:Ef; [inversion Hin|].
    apply list_elem_of_singleton in Hin. subst f.
    split; [discriminate|]. split.
    + apply truthy_Some in Hq as (s & -> & Hs). now exists s.
    + intros c Hc. change (c ∈ map col_name (c0 :: tcs)) in Hc.
      apply list_elem_of_In, in_map_iff in Hc as (col & <- & Hcol).
      exists col. rewrite <- Ef in Hcol.
      apply list_elem_of_In, list_elem_of_filter in Hcol. tauto.
  - destruct (Py.truthy date_from || Py.truthy date_to); [|inversion Hin].
    destruct (pick_date_column table date_col) as [dcol|] eqn:Ed; [|inversion Hin].
    apply pick_date_column_Some in Ed as [Hd1 Hd2].
    apply elem_of_app in Hin as [Hin|Hin].
    + destruct (Py.truthy date_from); [|inversion Hin].
      apply list_elem_of_singleton in Hin. subst f. split; [reflexivity|]. now exists dcol.
    + destruct (Py.truthy date_to); [|inversion Hin].
      apply list_elem_of_singleton in Hin. subst f. split; [reflexivity|]. now exists dcol.
Qed.

Lemma filters_name_existing_columns_witness :
  FDateGe "joined"
  ∈ (build_filters Sample.insp "public.investors" (Some "ada") (Some "2024-01-01") None
       (Some "name")).2
  /\ (Py.truthy (Some "2024-01-01") = true
      /\ exists col, col ∈ reflect_table Sample.insp "public.investors"
                     /\ col_name col = "joined" /\ _is_date_type (col_type col) = true).
Proof.
  assert (H : FDateGe "joined"
              ∈ (build_filters Sample.insp "public.investors" (Some "ada")
                   (Some "2024-01-01") None (Some "name")).2).
  { vm_compute. right. left. }
  split; [exact H|].
  exact (filters_name_existing_columns Sample.insp "public.investors" (Some "ada")
           (Some "2024-01-01") None (Some "name") (FDateGe "joined") H).
Defined.

(** X20. Every date bound of the filters has its bound parameter: a
    lower bound comes with the parameter [date_from] and an upper bound
    with [date_to], each bound to the text that was given; both bounds
    are on the same column; and a request without query and without dates
    has no filter and no parameter. *)
Theorem date_filters_have_their_parameters (insp : Inspector) (fullname : string)
    (q date_from date_to date_col : option string) :
  let filters := (build_filters insp fullname q date_from date_to date_col).2 in
  (forall c, FDateGe c ∈ filters ->
     exists s, date_from = Some s /\ ("date_from", s) ∈ bind_params date_from date_to)
  /\ (forall c, FDateLe c ∈ filters ->
        exists s, date_to = Some s /\ ("date_to", s) ∈ bind_params date_from date_to)
  /\ (forall c1 c2, FDateGe c1 ∈ filters -> FDateLe c2 ∈ filters -> c1 = c2)
  /\ (Py.truthy q = false -> Py.truthy date_from = false -> Py.truthy date_to = false ->
      filters = [] /\ bind_params date_from date_to = []).
Proof.
  unfold build_filters, bind_params. simpl.
  set (table := reflect_table insp fullname).
  assert (Htext : forall f,
            f ∈ (if Py.truthy q
                 then match filter (fun c => _is_text_type (col_type c) = true) table with
                      | [] => []
                      | c :: l => [FIlikeAny (map col_name (c :: l))
                                     ("%" +:+ default "" q +:+ "%")]
                      end
                 else []) ->
            exists cols like, f = FIlikeAny cols like).
  { intros f Hf. destruct (Py.truthy q); [|inversion Hf].
    destruct (filter _ table); [inversion Hf|].
    apply list_elem_of_singleton in Hf. eauto. }
  split; [|split; [|split]].
  - intros c Hin. apply elem_of_app in Hin as [Hin|Hin].
    { apply Htext in Hin as (? & ? & ?). discriminate. }
    destruct (Py.truthy date_from) eqn:Hf.
    + apply truthy_Some in Hf as (s & -> & _). exists s.
      split; [reflexivity|]. simpl. left.
    + rewrite orb_false_l in Hin. destruct (Py.truthy date_to); [|inversion Hin].
      destruct (pick_date_column table date_col); [|inversion Hin].
      simpl in Hin. apply list_elem_of_singleton in Hin. discriminate.
  - intros c Hin. apply elem_of_app in Hin as [Hin|Hin].
    { apply Htext in Hin as (? & ? & ?). discriminate. }
    destruct (Py.truthy date_to) eqn:Ht.
    + apply truthy_Some in Ht as (s & -> & _). exists s.
      split; [reflexivity|]. apply elem_of_app. right. simpl. left.
    + rewrite orb_false_r in Hin. destruct (Py.truthy date_from); [|inversion Hin].
      destruct (pick_date_column table date_col); [|inversion Hin].
      rewrite app_nil_r in Hin. apply list_elem_of_singleton in Hin. discriminate.
  - intros c1 c2 H1 H2.
    apply elem_of_app in H1 as [H1|H1].
    { apply Htext in H1 as (? & ? & ?). discriminate. }
    apply elem_of_app in H2 as [H2|H2].
    { apply Htext in H2 as (? & ? & ?). discriminate. }
    destruct (Py.truthy date_from || Py.truthy date_to); [|inversion H1].
    destruct (pick_date_column table date_col) as [dcol|]; [|inversion H1].
    assert (E1 : c1 = col_name dcol).
    { apply elem_of_app in H1 as [H1|H1].
      - destruct (Py.truthy date_from); [|inversion H1].
        apply list_elem_of_singleton in H1. congruence.
      - destruct (Py.truthy date_to); [|inversion H1].
        apply list_elem_of_singleton in H1. discriminate. }
    assert (E2 : c2 = col_name dcol).
    { apply elem_of_app in H2 as [H2|H2].
      - destruct (Py.truthy date_from); [|inversion H2].
        apply list_elem_of_singleton in H2. discriminate.
      - destruct (Py.truthy date_to); [|inversion H2].
        apply list_elem_of_singleton in H2. congruence. }
    congruence.
  - intros -> -> ->. simpl. split; reflexivity.
Qed.

(** ** The date column of the timeline *)

Lemma find_date_None (table : list Column) :
  find (fun c => _is_date_type (col_type c)) table = None
  <-> forall c, c ∈ table -> _is_date_type (col_type c) = false.
Proof.
  split.
  - intros H c Hc. apply list_elem_of_In in Hc. exact (find_none _ _ H c Hc).
  - intros H. destruct (find _ table) as [c|] eqn:E; [|reflexivity].
    apply find_some in E as [Hin Hc]. apply list_elem_of_In in Hin.
    rewrite (H c Hin) in Hc. discriminate.
Qed.

Lemma filters_have_no_date_without_date_column (insp : Inspector) (fullname : string)
    (q date_from date_to date_col : option string) :
  (forall c, c ∈ reflect_table insp fullname -> _is_date_type (col_type c) = false) ->
  forall f, f ∈ (build_filters insp fullname q date_from date_to date_col).2 ->
            exists cols like, f = FIlikeAny cols like.
Proof.
  intros Hnone f. unfold build_filters. simpl.
  set (table := reflect_table insp fullname) in *.
  intros Hin. apply elem_of_app in Hin as [Hin|Hin].
  - destruct (Py.truthy q); [|inversion Hin].
    destruct (filter _ table); [inversion Hin|].
    apply list_elem_of_singleton in Hin. eauto.
  - destruct (Py.truthy date_from || Py.truthy date_to); [|inversion Hin].
    destruct (pick_date_column table date_col) as [dcol|] eqn:Ed; [|inversion Hin].
    apply pick_date_column_Some in Ed as [Hd1 Hd2].
    rewrite (Hnone dcol Hd1) in Hd2. discriminate.
Qed.

(** X21. The timeline answers 400 exactly when no column of the table is
    date-typed, whatever column was requested; otherwise its date column
    is a date-typed column of the table and the name shown is the name of
    that column. On a table that the timeline refuses, the filters of the
    table page have no date bound, whatever dates are requested. *)
Theorem timeline_needs_a_date_column (insp : Inspector) (table_name : string)
    (date_col : option string) :
  let table := reflect_table insp (qualify table_name) in
  (timeline_date_column insp table_name date_col
   = inl (400%nat, "No date/datetime column found. Provide ?date_col=")
   <-> forall c, c ∈ table -> _is_date_type (col_type c) = false)
  /\ (forall c shown,
        timeline_date_column insp table_name date_col = inr (c, shown) ->
        c ∈ table /\ _is_date_type (col_type c) = true /\ shown = Some (col_name c))
  /\ ((forall c, c ∈ table -> _is_date_type (col_type c) = false) ->
      forall q date_from date_to requested f,
        f ∈ (build_filters insp (qualify table_name) q date_from date_to requested).2 ->
        exists cols like, f = FIlikeAny cols like).
Proof.
  intros table. unfold timeline_date_column. fold table.
  split; [|split].
  - destruct (Py.truthy date_col).
    + destruct (table_c_get table (default "" date_col)) as [c|] eqn:E; simpl.
      * destruct (_is_date_type (col_type c)) eqn:Hd.
        -- split; [discriminate|]. intros H. apply table_c_get_Some in E as [Hin _].
           rewrite (H c Hin) in Hd. discriminate.
        -- rewrite <- find_date_None. destruct (find _ table); split; congruence.
      * rewrite <- find_date_None. destruct (find _ table); split; congruence.
    + rewrite <- find_date_None. destruct (find _ table); split; congruence.
  - intros c shown.
    assert (Hfind : match find (fun c => _is_date_type (col_type c)) table with
                    | Some c0 => inr (c0, Some (col_name c0))
                    | None => inl (400%nat, "No date/datetime column found. Provide ?date_col=")
                    end = inr (c, shown) ->
                    c ∈ table /\ _is_date_type (col_type c) = true
                    /\ shown = Some (col_name c)).
    { destruct (find _ table) as [c0|] eqn:E; [|discriminate].
      intros [= <- <-]. apply find_some in E as [Hin Hc].
      split; [now apply list_elem_of_In|]. now split. }
    destruct (Py.truthy date_col) eqn:T; [|exact Hfind].
    destruct (table_c_get table (default "" date_col)) as [c'|] eqn:E; simpl; [|exact Hfind].
    destruct (_is_date_type (col_type c')) eqn:Hd; [|exact Hfind].
    intros [= <- <-]. apply table_c_get_Some in E as [Hin Hn].
    split; [exact Hin|]. split; [exact Hd|].
    apply truthy_Some in T as (s & -> & _). simpl in Hn. now rewrite Hn.
  - intros Hnone q date_from date_to requested f Hf.
    pose proof (filters_have_no_date_without_date_column insp (qualify table_name)
                  q date_from date_to requested Hnone f Hf) as H.
    exact H.
Qed.

(** ** The export stream *)

Lemma row_iter_loop_rows (L : Lib) (fieldnames : list string) (rows : list Row) :
  row_iter_loop L rows "" (Some fieldnames)
  = map (fun r => csv_line L (map (fun k => row_get k r) fieldnames)) rows.
Proof.
  induction rows as [|row rows IH]; simpl; [reflexivity|].
  f_equal. exact IH.
Qed.

(** X22. An export sends one statement, its filtered select, and leaves
    the store as it was. When the select fails, the streaming fails with
    that failure. Otherwise the file is named after the table with its
    dots turned into underscores, and the body is empty for no rows and
    else one chunk with the header line, made of the keys of the first
    row, followed by one chunk for each row, its cells taken under those
    keys: every chunk is one line, nothing of an earlier chunk is sent
    again. *)
Theorem export_streams_header_then_rows (insp : Inspector) (D : Db) (L : Lib)
    (table_name : string) (q date_from date_to date_col : option string)
    (limit : option Z) (w : World D) :
  let stmt := export_stmt insp table_name q date_from date_to date_col limit in
  export_csv insp D L table_name q date_from date_to date_col limit w
  = (match db_query D (w_store w) stmt with
     | inl e => inl e
     | inr rows =>
         inr {| filename := Py.replace_char "." "_" table_name +:+ ".csv";
                body := match rows with
                        | [] => []
                        | row :: _ =>
                            csv_line L (map VStr (map fst row))
                              :: map (fun r =>
                                        csv_line L (map (fun k => row_get k r) (map fst row)))
                                     rows
                        end |}
     end,
     {| w_store := w_store w; w_log := w_log w ++ [EvExecute stmt] |}).
Proof.
  intros stmt. unfold export_csv, row_iter, bind, execute_query. fold stmt.
  destruct (db_query D (w_store w) stmt) as [e|rows]; [reflexivity|].
  unfold ret. simpl. f_equal. f_equal. f_equal.
  destruct rows as [|row rows]; [reflexivity|].
  simpl. f_equal. f_equal. apply row_iter_loop_rows.
Qed.

(** ** The select of a page *)

(** X23. The select of a page orders by primary-key columns only: the
    columns to order by are those of the primary key that are columns of
    the table, in the order of the key, all of the key when every key
    column is a column of the table, and none when ordering is turned
    off. The filters and the bound parameters are those of the filter
    builder, and on the table page each page starts where the page before
    it ends. *)
Theorem page_select_orders_by_key_columns (insp : Inspector) (fullname table_name : string)
    (limit offset page : Z) (order_by_pk_desc : bool)
    (q date_from date_to date_col : option string) :
  let ps := select_rows_stmt insp fullname limit offset order_by_pk_desc
              q date_from date_to date_col in
  ps_order_by_desc ps `sublist_of` primary_key_or_nil insp fullname
  /\ (forall c, c ∈ ps_order_by_desc ps -> c ∈ ps_columns ps)
  /\ (order_by_pk_desc = false -> ps_order_by_desc ps = [])
  /\ (order_by_pk_desc = true ->
      (forall c, c ∈ primary_key_or_nil insp fullname ->
                 c ∈ map col_name (reflect_table insp fullname)) ->
      ps_order_by_desc ps = primary_key_or_nil insp fullname)
  /\ ps_filters ps = (build_filters insp fullname q date_from date_to date_col).2
  /\ ps_binds ps = bind_params date_from date_to
  /\ ps_offset (view_table_stmt insp table_name limit (page + 1) q date_from date_to date_col)
     = (ps_offset (view_table_stmt insp table_name limit page q date_from date_to date_col)
        + limit)%Z.
Proof.
  intros ps. subst ps. unfold view_table_stmt, select_rows_stmt, build_filters. simpl.
  set (table := reflect_table insp fullname).
  assert (Hcol : forall c, is_Some (table_c_get table c) <-> c ∈ map col_name table).
  { intros c. split.
    - intros [col Hc]. apply table_c_get_Some in Hc as [Hin <-].
      apply list_elem_of_In, in_map, list_elem_of_In. exact Hin.
    - intros Hc. apply list_elem_of_In, in_map_iff in Hc as (col & <- & Hin).
      unfold table_c_get. destruct (find _ table) as [c'|] eqn:E; [now exists c'|].
      apply (find_none _ _ E col) in Hin.
      now rewrite bool_decide_eq_true_2 in Hin by reflexivity. }
  split; [|split; [|split; [|split; [|split; [|split]]]]].
  - destruct order_by_pk_desc; [apply sublist_filter | apply sublist_nil_l].
  - intros c Hc. destruct order_by_pk_desc; [|inversion Hc].
    apply list_elem_of_filter in Hc as [Hc _]. now apply Hcol.
  - intros ->. reflexivity.
  - intros -> Hall.
    induction (primary_key_or_nil insp fullname) as [|c pk IH]; [reflexivity|].
    rewrite filter_cons_True by (apply Hcol, Hall; left).
    f_equal. apply IH. intros c' Hc'. apply Hall. now right.
  - reflexivity.
  - reflexivity.
  - lia.
Qed.

(** ** Enrichment of the procedures *)

Lemma returns_weaken {D A} (E E' : Event -> Prop) (Q Q' : A -> Prop) (m : M D A) :
  (forall ev, E ev -> E' ev) -> (forall a, Q a -> Q' a) -> returns E Q m -> returns E' Q' m.
Proof.
  intros HE HQ Hm w. destruct (Hm w) as (a & evs & Eq & F & Ha).
  exists a, evs. split; [exact Eq|]. split; [|now apply HQ].
  eapply Forall_impl; [exact F | exact HE].
Qed.

Lemma returns_resolve_ref (insp : Inspector) (D : Db) (proc : string)
    (param_name : option string) :
  returns (fun ev => is_enrich_event ev = true)
          (fun r => (Py.truthy (override_for proc param_name) = true
                     /\ r = override_for proc param_name)
                    \/ r = guess_ref_table_for_param insp param_name)
          (resolve_ref insp D proc param_name).
Proof.
  unfold resolve_ref. destruct (Py.truthy (override_for proc param_name)) eqn:T; simpl.
  - apply returns_ret. now left.
  - intros w. eexists _, [EvGuess param_name]. unfold bind, log_event, ret.
    split; [reflexivity|]. split; [now repeat constructor | now right].
Qed.

Lemma returns_enrich_param (insp : Inspector) (D : Db) (proc : string) (p : Param) :
  returns (fun ev => is_enrich_event ev = true) (enrich_invariant insp proc p)
          (enrich_param insp D proc p).
Proof.
  unfold enrich_param, enrich_invariant.
  eapply returns_bind; [apply returns_resolve_ref|].
  intros r Hr.
  assert (Hsrc : forall t, r = Some t ->
            override_for proc (p_name p) = Some t
            \/ (guess_ref_table_for_param insp (p_name p) = Some t /\ t ∈ get_tables insp)).
  { intros t ->. destruct Hr as [[_ Hr]|Hr]; [now left|].
    right. split; [now symmetry|].
    symmetry in Hr. now apply guess_returns_listed_table_aux in Hr. }
  destruct r as [t|]; [|apply returns_ret; split; [reflexivity | discriminate]].
  destruct (bool_decide (t = "")) eqn:Ht;
    [apply returns_ret; split; [reflexivity | discriminate]|].
  apply bool_decide_eq_false_1 in Ht.
  destruct (get_primary_key insp t) as [[|id_name pks]|] eqn:Hpk;
    try (apply returns_ret; split; [reflexivity | discriminate]).
  eapply returns_bind.
  - eapply returns_weaken; [| |apply returns_options_or_nil].
    + intros [[]|]; simpl; congruence.
    + intros a Ha. exact Ha.
  - intros opts _. apply returns_ret. split; [reflexivity|].
    simpl. intros ri [= <-]. simpl. split; [exact Ht|].
    split; [now exists pks|]. split; [reflexivity|]. now apply Hsrc.
Qed.


Lemma returns_enrich_procedures (insp : Inspector) (D : Db)
    (procedures : list (string * list Param)) :
  returns (fun ev => is_enrich_event ev = true)
          (Forall2 (fun pr er => er.1 = pr.1
                                 /\ Forall2 (enrich_invariant insp pr.1) pr.2 er.2)
                   procedures)
          (enrich_procedures_with_options insp D procedures).
Proof.
  unfold enrich_procedures_with_options. apply returns_mapM.
  intros [proc params]. eapply returns_bind.
  - apply returns_mapM. intros p. apply returns_enrich_param.
  - intros eps Heps. apply returns_ret. now split.
Qed.

Lemma enriched_names (insp : Inspector) (procedures : list (string * list Param))
    (res : list (string * list EnrichedParam)) :
  Forall2 (fun pr er => er.1 = pr.1 /\ Forall2 (enrich_invariant insp pr.1) pr.2 er.2)
          procedures res ->
  map (fun er => (er.1, map ep_param er.2)) res = procedures.
Proof.
  induction 1 as [|[n ps] [n' eps] l l' [Hn Hps] _ IH]; simpl in *; [reflexivity|].
  f_equal; [|exact IH]. subst n'. f_equal.
  clear -Hps. induction Hps as [|p e ps eps [Hp _] _ IH]; simpl; [reflexivity|].
  now rewrite Hp, IH.
Qed.


(** ** Views and the operations page *)

Lemma get_views_spec (D : Db) (w : World D) :
  exists r : DbError + list string,
    get_views D w
    = (r, {| w_store := w_store w; w_log := w_log w ++ [EvExecute (StText views_sql [])] |})
    /\ match db_query D (w_store w) (StText views_sql []) with
       | inl e => r = inl e
       | inr rows =>
           exists views,
             r = inr views
             /\ Sorted String.le views
             /\ forall v, v ∈ views <-> exists row, row ∈ rows /\ row_str 0 row = Some v
       end.
Proof.
  unfold get_views, bind, execute_query.
  destruct (db_query D (w_store w) (StText views_sql [])) as [e|rows].
  - now exists (inl e).
  - eexists. unfold ret. split; [reflexivity|].
    eexists. split; [reflexivity|]. split; [apply Sorted_merge_sort; apply _|].
    intros v. rewrite elem_of_sorted. apply list_elem_of_omap.
Qed.

(** X26. Listing the views sends the one catalogue query for them and
    leaves the store as it was. When the query fails, so does the
    listing; otherwise the list is sorted and holds exactly the names of
    the rows that have one. *)
Theorem views_listing (D : Db) (w : World D) :
  exists r : DbError + list string,
    get_views D w
    = (r, {| w_store := w_store w; w_log := w_log w ++ [EvExecute (StText views_sql [])] |})
    /\ match db_query D (w_store w) (StText views_sql []) with
       | inl e => r = inl e
       | inr rows =>
           exists views,
             r = inr views
             /\ Sorted String.le views
             /\ forall v, v ∈ views <-> exists row, row ∈ rows /\ row_str 0 row = Some v
       end.
Proof. apply get_views_spec. Qed.

(** X27. The operations page always gets an answer and never changes the
    store. When the query of the views fails, the answer is a 500
    response with the text of that failure and nothing else was sent.
    A rendered page has a sorted list of views and each procedure name
    once; an error response has the status 500. *)
Theorem operations_page (insp : Inspector) (D : Db) (w : World D) :
  exists (out : OperationsOutcome) (evs : list Event),
    list_operations insp D w
    = (inr out, {| w_store := w_store w; w_log := w_log w ++ evs |})
    /\ match out with
       | RenderOperations views procedures =>
           Sorted String.le views /\ NoDup (map fst procedures)
       | OperationsHttpError status _ => status = 500%nat
       end
    /\ (forall e, db_query D (w_store w) (StText views_sql []) = inl e ->
        out = OperationsHttpError 500 (str_e e)
        /\ evs = [EvExecute (StText views_sql [])]).
Proof.
  unfold list_operations, catch.
  destruct (get_views_spec D w) as (rv & Ev & Hv).
  unfold bind at 1. rewrite Ev.
  destruct (db_query D (w_store w) (StText views_sql [])) as [e|rows] eqn:Eq.
  - subst rv. unfold ret. eexists _, [_]. split; [reflexivity|].
    split; [reflexivity|]. intros e' [= <-]. now split.
  - destruct Hv as (views & -> & Hsorted & _).
    set (w1 := {| w_store := w_store w;
                  w_log := w_log w ++ [EvExecute (StText views_sql [])] |}).
    destruct (get_procedures_spec D w1) as (rp & evs1 & Ep & _ & Hp).
    unfold bind at 1. rewrite Ep.
    destruct rp as [e|procs].
    + unfold ret. eexists _, (_ :: evs1). split; [simpl; now rewrite <- app_assoc|].
      split; [reflexivity|]. intros e'. discriminate.
    + set (w2 := {| w_store := w_store w1; w_log := w_log w1 ++ evs1 |}).
      destruct (returns_enrich_procedures insp D procs w2) as (res & evs2 & Ee & _ & Hres).
      unfold bind. rewrite Ee. unfold ret.
      eexists _, ((EvExecute (StText views_sql []) :: evs1) ++ evs2).
      split; [simpl; now rewrite <- !app_assoc|].
      split; [|intros e'; discriminate].
      split; [exact Hsorted|].
      assert (Hnd : NoDup (map fst procs)).
      { simpl in Hp. destruct (db_query D (w_store w) (StText routines_sql []));
          [destruct Hp as [Hp _]; discriminate Hp|].
        now destruct (Hp procs eq_refl). }
      apply enriched_names in Hres.
      rewrite <- Hres in Hnd. rewrite map_map in Hnd. exact Hnd.
Qed.
